(** * Offline-first task manager: conflict resolver, service worker, outbox

    A shallow embedding of the JavaScript of the repository:
    - [ConflictResolver] (technical-research.md),
    - the service worker sw.js: the [notificationclick] and [fetch]
      listeners, the three caching strategies and the background drain
      of the [syncQueue] object store,
    - [storeOperationForSync] (service-worker-patterns.md), the producer
      side of the same object store.

    Promises are modelled by the way they settle, exceptions by an explicit
    completion, and the browser objects the code talks to (Cache, IndexedDB,
    clients) by explicit state that is passed through. Console output is
    not modelled, and IndexedDB requests do not meet storage faults. *)

From Stdlib Require Import ZArith QArith Qround Lqa Lia Bool Sorted.
From stdpp Require Import gmap strings list.

Local Open Scope Z_scope.
Local Open Scope string_scope.

(** ** JavaScript basics *)

(** The exceptions the modelled code can meet. *)
Inductive JsError : Type :=
  | TypeError (msg : string)            (* property read on undefined, failed fetch *)
  | ReferenceError (msg : string)       (* a name that is not defined *)
  | ErrorObj (msg : string)             (* [new Error(msg)] *)
  | DOMException (name : string).       (* raised by IndexedDB *)

(** How a promise ends: fulfilled with a value, rejected with an error, or
    left pending for ever (no callback ever calls [resolve] or [reject]). *)
Inductive Settled (A : Type) : Type :=
  | Resolved (a : A)
  | Rejected (e : JsError)
  | NeverSettles.
Arguments Resolved {A} a.
Arguments Rejected {A} e.
Arguments NeverSettles {A}.

(** How a synchronous piece of code ends. *)
Inductive Completion : Type :=
  | Normal
  | Throw (e : JsError).

(** ** Conflict resolver (technical-research.md, class ConflictResolver) *)

Module ConflictResolver.

(** A task record. The resolver reads [modifiedAt], [status] and [priority];
    the object spread [...remoteTask] copies every other field. *)
Record Task : Type := mkTask {
  id : string;
  title : string;
  description : string;
  status : string;
  priority : string;
  modifiedAt : Z
}.

(** [resolveStatusConflict(localStatus, remoteStatus)] *)
Definition resolveStatusConflict (localStatus remoteStatus : string) : string :=
  if String.eqb localStatus "completed" || String.eqb remoteStatus "completed"
  then "completed"
  else remoteStatus.

(** [resolveTaskConflict(localTask, remoteTask)]. The object literal of the
    merge path is evaluated in order: the spread, then [status], then
    [priority: this.resolvePriorityConflict(...)]. The class defines no
    method of that name, so the call throws a TypeError and no record is
    returned on that path. *)
Definition resolveTaskConflict (localTask remoteTask : Task) : JsError + Task :=
  if (modifiedAt remoteTask <? modifiedAt localTask)%Z
  then inr localTask
  else
    let merged_status := resolveStatusConflict (status localTask) (status remoteTask) in
    inl (TypeError "this.resolvePriorityConflict is not a function").

(** The two records of the conflict scenario. *)
Definition scenario_local : Task :=
  {| id := "t1"; title := "Buy milk"; description := "";
     status := "pending"; priority := "medium"; modifiedAt := 100 |}.

Definition scenario_remote : Task :=
  {| id := "t1"; title := "Buy milk"; description := "";
     status := "completed"; priority := "medium"; modifiedAt := 90 |}.

End ConflictResolver.

(** ** Notification click (sw.js, 'notificationclick' listener) *)

Module NotificationClick.

(** The JavaScript values the listener handles. *)
#[warnings="-register-all"] Inductive JsValue : Type :=
  | JsUndefined
  | JsString (s : string)
  | JsObject (props : list (string * JsValue)).

(** Own property lookup; a missing property reads as [undefined]. *)
Fixpoint lookup_prop (name : string) (props : list (string * JsValue)) : JsValue :=
  match props with
  | [] => JsUndefined
  | (k, v) :: rest => if String.eqb k name then v else lookup_prop name rest
  end.

(** [v.name]: reading a property of [undefined] throws a TypeError, a
    string primitive has none of the names read here. *)
Definition getProp (v : JsValue) (name : string) : JsError + JsValue :=
  match v with
  | JsUndefined =>
      inl (TypeError ("Cannot read properties of undefined (reading '" ++ name ++ "')"))
  | JsString _ => inr JsUndefined
  | JsObject props => inr (lookup_prop name props)
  end.

(** String conversion inside a template literal. *)
Definition toString (v : JsValue) : string :=
  match v with
  | JsUndefined => "undefined"
  | JsString s => s
  | JsObject _ => "[object Object]"
  end.

(** What the listener does to the outside, in order. *)
Inductive Effect : Type :=
  | NotificationClose
  | WaitUntilOpenWindow (url : string).

(** The listener: the effects it performed and how it completed. *)
Definition notificationclick (event : JsValue) : list Effect * Completion :=
  (* event.notification.close(); *)
  match getProp event "notification" with
  | inl e => ([], Throw e)
  | inr JsUndefined =>
      ([], Throw (TypeError "Cannot read properties of undefined (reading 'close')"))
  | inr (JsString _) =>
      ([], Throw (TypeError "event.notification.close is not a function"))
  | inr (JsObject _) =>
      (* const { action, data } = event; *)
      match getProp event "action", getProp event "data" with
      | inl e, _ | _, inl e => ([NotificationClose], Throw e)
      | inr action, inr data =>
          match action with
          | JsString "complete" =>
              (* handleTaskComplete(data.taskId): the worker defines no
                 handleTaskComplete, and the name is looked up before the
                 argument is evaluated *)
              ([NotificationClose],
               Throw (ReferenceError "handleTaskComplete is not defined"))
          | JsString "view" =>
              match getProp data "taskId" with
              | inl e => ([NotificationClose], Throw e)
              | inr taskId =>
                  ([NotificationClose; WaitUntilOpenWindow ("/?task=" ++ toString taskId)],
                   Normal)
              end
          | _ => ([NotificationClose; WaitUntilOpenWindow "/"], Normal)
          end
      end
  end.

(** The event the browser dispatches for a click on a notification shown by
    the 'push' listener: [showNotification(title, {..., data: data.data})]
    keeps the payload on the notification, and a NotificationEvent has the
    attributes [notification] and [action]. *)
Definition NotificationEvent (action : string) (payload : JsValue) : JsValue :=
  JsObject [("notification", JsObject [("data", payload)]);
            ("action", JsString action)].

(** The payload of the spec, [data: {taskId}]. *)
Definition payload_of (taskId : string) : JsValue :=
  JsObject [("taskId", JsString taskId)].

End NotificationClick.

(** ** Fetch interception and caching strategies (sw.js) *)

Module ServiceWorkerCache.

(** A parsed URL, as [new URL(event.request.url)] gives it. *)
Record URL : Type := mkURL {
  origin : string;
  pathname : string;
  search : string
}.

Definition href (u : URL) : string := origin u ++ pathname u ++ search u.

Record Request : Type := mkRequest {
  method : string;
  url : URL
}.

Record Response : Type := mkResponse {
  status : Z;
  body : string
}.

(** [response.ok]: the status is in the range 200-299. *)
Definition ok (r : Response) : bool := (200 <=? status r)%Z && (status r <=? 299)%Z.

(** The cache named CACHE_NAME, keyed by the URL of the request. *)
Abbreviation Cache := (gmap string Response).

(** [fetch]: how the network answers each request. *)
Definition Network : Type := Request -> Settled Response.

(** What a strategy does, in order. [Return] marks the moment the promise
    the strategy returned settles; steps after it run in the background. *)
Inductive Step : Type :=
  | CacheMatch (key : string)
  | Fetch (key : string)
  | CachePut (key : string) (r : Response)
  | Return.

(** [cache.put(request, response)]: the Cache API refuses a partial
    response (status 206) with a rejection nobody observes, and stores any
    other response under the URL of the request. *)
Definition cache_put (key : string) (r : Response) (c : Cache) : Cache :=
  if (status r =? 206)%Z then c else <[key := r]> c.

Definition apply_step (c : Cache) (s : Step) : Cache :=
  match s with
  | CachePut key r => cache_put key r c
  | _ => c
  end.

(** The cache once every [cache.put] issued by a run has completed. *)
Definition cache_after (c : Cache) (steps : list Step) : Cache :=
  fold_left apply_step steps c.

(** [if (response.ok) cache.put(request, response.clone())] *)
Definition put_if_ok (key : string) (r : Response) : list Step :=
  if ok r then [CachePut key r] else [].

(** [cacheFirstStrategy(request)] *)
Definition cacheFirstStrategy (net : Network) (c : Cache) (request : Request)
  : list Step * Settled Response :=
  let key := href (url request) in
  match c !! key with
  | Some cachedResponse =>
      (* fetch(request).then(...) is not awaited *)
      let background :=
        match net request with
        | Resolved response => put_if_ok key response
        | _ => []
        end in
      (([CacheMatch key; Fetch key; Return] ++ background)%list, Resolved cachedResponse)
  | None =>
      match net request with
      | Resolved networkResponse =>
          (([CacheMatch key; Fetch key] ++ put_if_ok key networkResponse ++ [Return])%list,
           Resolved networkResponse)
      | Rejected _ =>
          ([CacheMatch key; Fetch key; Return],
           Resolved {| status := 503; body := "Offline" |})
      | NeverSettles => ([CacheMatch key; Fetch key], NeverSettles)
      end
  end.

(** [networkFirstStrategy(request)] *)
Definition networkFirstStrategy (net : Network) (c : Cache) (request : Request)
  : list Step * Settled Response :=
  let key := href (url request) in
  match net request with
  | Resolved networkResponse =>
      (([Fetch key] ++ put_if_ok key networkResponse ++ [Return])%list,
       Resolved networkResponse)
  | Rejected _ =>
      match c !! key with
      | Some cachedResponse =>
          ([Fetch key; CacheMatch key; Return], Resolved cachedResponse)
      | None =>
          ([Fetch key; CacheMatch key; Return],
           Resolved {| status := 503; body := "Network error" |})
      end
  | NeverSettles => ([Fetch key], NeverSettles)
  end.

(** [staleWhileRevalidateStrategy(request)] *)
Definition staleWhileRevalidateStrategy (net : Network) (c : Cache) (request : Request)
  : list Step * Settled Response :=
  let key := href (url request) in
  match c !! key with
  | Some cachedResponse =>
      let background :=
        match net request with
        | Resolved response => put_if_ok key response
        | _ => []
        end in
      (([CacheMatch key; Fetch key; Return] ++ background)%list, Resolved cachedResponse)
  | None =>
      match net request with
      | Resolved response =>
          (([CacheMatch key; Fetch key] ++ put_if_ok key response ++ [Return])%list,
           Resolved response)
      | Rejected e => ([CacheMatch key; Fetch key; Return], Rejected e)
      | NeverSettles => ([CacheMatch key; Fetch key], NeverSettles)
      end
  end.

(** [haystack.includes(needle)] *)
Fixpoint includes (needle haystack : string) : bool :=
  if String.prefix needle haystack then true
  else match haystack with
       | EmptyString => false
       | String _ rest => includes needle rest
       end.

(** The 'fetch' listener. [location_origin] is [location.origin] of the
    worker. [None]: the listener returned without calling
    [event.respondWith], and the browser handles the request as if there
    were no worker; [Some run]: [respondWith] received the promise of the
    strategy whose run is [run]. *)
Definition fetch_listener (location_origin : string) (net : Network) (c : Cache)
    (request : Request) : option (list Step * Settled Response) :=
  if negb (String.eqb (method request) "GET")
     || negb (String.eqb (origin (url request)) location_origin)
  then None
  else if includes "/api/" (pathname (url request))
  then Some (networkFirstStrategy net c request)
  else if includes "/static/" (pathname (url request))
  then Some (cacheFirstStrategy net c request)
  else Some (staleWhileRevalidateStrategy net c request).

(** The steps the worker performed for a fetch event. *)
Definition listener_steps (run : option (list Step * Settled Response)) : list Step :=
  match run with
  | None => []
  | Some (steps, _) => steps
  end.

(** Concrete inputs used below: a same-origin API request, a static
    asset, a network that answers 404 and a cache holding an older answer. *)
Definition request_api : Request :=
  {| method := "GET";
     url := {| origin := "https://app.example"; pathname := "/api/tasks"; search := "" |} |}.

Definition request_static : Request :=
  {| method := "GET";
     url := {| origin := "https://app.example"; pathname := "/static/app.js"; search := "" |} |}.

Definition response_404 : Response := {| status := 404; body := "Not Found" |}.
Definition response_old : Response := {| status := 200; body := "old" |}.
Definition response_new : Response := {| status := 200; body := "new" |}.

Definition net_404 : Network := fun _ => Resolved response_404.
Definition net_down : Network := fun _ => Rejected (TypeError "Failed to fetch").
Definition net_up : Network := fun _ => Resolved response_new.

Definition cache_old : Cache := {[ href (url request_api) := response_old ]}.

End ServiceWorkerCache.

(** ** The outbox: the syncQueue object store and its drain *)

Module Outbox.

(** A record of the 'syncQueue' object store (keyPath 'id'). [id] is
    [Date.now() + Math.random()], a double that need not be an integer;
    every double is a rational, and that rational is what is kept here. *)
Record SyncOperation : Type := mkSyncOperation {
  id : Q;
  type : string;
  data : string;
  timestamp : Z
}.

(** The operation handed to [storeOperationForSync], before the spread
    [{...operation, id, timestamp}] adds the key and the timestamp. *)
Record Operation : Type := mkOperation {
  op_type : string;
  op_data : string
}.

(** The database 'TaskManagerDB' as the code sees it: its version, and
    the records of 'syncQueue' in key order ([None]: the object store
    does not exist). *)
Record IDBDatabase : Type := mkIDBDatabase {
  version : positive;
  syncQueue : option (list SyncOperation)
}.

Definition with_syncQueue (db : IDBDatabase) (entries : list SyncOperation) : IDBDatabase :=
  {| version := version db; syncQueue := Some entries |}.

(** [db.objectStoreNames.contains('syncQueue')] *)
Definition contains_syncQueue (db : IDBDatabase) : bool :=
  match syncQueue db with
  | Some _ => true
  | None => false
  end.

(** [db.transaction(['syncQueue'], mode).objectStore('syncQueue')]: throws
    NotFoundError when the object store does not exist. *)
Definition transaction_syncQueue (db : IDBDatabase) : JsError + list SyncOperation :=
  match syncQueue db with
  | Some entries => inr entries
  | None => inl (DOMException "NotFoundError")
  end.

(** [store.add(record)]: the records are kept in ascending key order and
    a key that is already present is a ConstraintError ([None]). *)
Fixpoint store_add (record : SyncOperation) (entries : list SyncOperation)
  : option (list SyncOperation) :=
  match entries with
  | [] => Some [record]
  | x :: rest =>
      match (id record ?= id x)%Q with
      | Lt => Some (record :: x :: rest)
      | Eq => None
      | Gt => option_map (cons x) (store_add record rest)
      end
  end.

(** [store.delete(key)]: removes the record with that key, if any. *)
Definition store_delete (key : Q) (entries : list SyncOperation) : list SyncOperation :=
  List.filter (fun x => negb (Qeq_bool (id x) key)) entries.

(** A value passed where a key is expected: a number, or something that
    is not a valid key ([undefined], [null], an object). *)
Inductive JsKey : Type :=
  | KeyNumber (q : Q)
  | NotAKey.

(** Whether the object store holds a record under the given key. *)
Definition has_key (key : JsKey) (db : IDBDatabase) : bool :=
  match key, syncQueue db with
  | KeyNumber q, Some entries => existsb (fun x => Qeq_bool (id x) q) entries
  | _, _ => false
  end.

(** [indexedDB.open('TaskManagerDB', 1)] of the worker, with its
    [onupgradeneeded]. The argument is the database on disk ([None]: not
    created yet); the result is the promise and the database afterwards. *)
Definition openDatabase (disk : option IDBDatabase)
  : Settled IDBDatabase * option IDBDatabase :=
  match disk with
  | None =>
      (* upgrade from version 0: the object store is created *)
      let db := {| version := 1; syncQueue := Some [] |} in
      (Resolved db, Some db)
  | Some db =>
      if (1 <? version db)%positive
      then (Rejected (DOMException "VersionError"), Some db)
      else (Resolved db, Some db)
  end.

(** [getPendingOperations(db)] *)
Definition getPendingOperations (db : IDBDatabase) : Settled (list SyncOperation) :=
  if negb (contains_syncQueue db) then Resolved []
  else match transaction_syncQueue db with
       | inr entries => Resolved entries        (* store.getAll() *)
       | inl _ => Resolved []                   (* catch *)
       end.

(** [markOperationComplete(db, operationId)] *)
Definition markOperationComplete (db : IDBDatabase) (operationId : JsKey)
  : Settled unit * IDBDatabase :=
  if negb (contains_syncQueue db) then (Resolved tt, db)
  else match transaction_syncQueue db with
       | inl _ => (Resolved tt, db)             (* catch *)
       | inr entries =>
           match operationId with
           | NotAKey => (Resolved tt, db)       (* DataError, caught *)
           | KeyNumber key => (Resolved tt, with_syncQueue db (store_delete key entries))
           end
       end.

(** [syncCreateTask], [syncUpdateTask], [syncDeleteTask]: they log and
    return. *)
Definition syncCreateTask (taskData : string) : Settled unit := Resolved tt.
Definition syncUpdateTask (taskData : string) : Settled unit := Resolved tt.
Definition syncDeleteTask (taskData : string) : Settled unit := Resolved tt.

(** [executeOperation(operation)] *)
Definition executeOperation (operation : SyncOperation) : Settled unit :=
  if String.eqb (type operation) "CREATE_TASK" then syncCreateTask (data operation)
  else if String.eqb (type operation) "UPDATE_TASK" then syncUpdateTask (data operation)
  else if String.eqb (type operation) "DELETE_TASK" then syncDeleteTask (data operation)
  else Rejected (ErrorObj ("Unknown operation type: " ++ type operation)).

(** The calls the loop makes, in order, each with the way its promise
    settled. *)
Inductive Call : Type :=
  | ExecuteOperation (operation : SyncOperation) (r : Settled unit)
  | MarkOperationComplete (operationId : Q) (r : Settled unit).

Definition prepend_calls (cs : list Call)
    (r : Settled unit * IDBDatabase * list Call) : Settled unit * IDBDatabase * list Call :=
  let '(s, db, calls) := r in (s, db, (cs ++ calls)%list).

(** The [for (const operation of operations)] loop of
    [syncPendingOperations], with its inner [try]/[catch]: a rejection of
    either call is caught (and logged) and the loop goes on. An [await] on
    a promise that never settles stops the loop there. *)
Fixpoint drain_loop (db : IDBDatabase) (operations : list SyncOperation)
  : Settled unit * IDBDatabase * list Call :=
  match operations with
  | [] => (Resolved tt, db, [])
  | operation :: rest =>
      match executeOperation operation with
      | Resolved u =>
          match markOperationComplete db (KeyNumber (id operation)) with
          | (NeverSettles, db') =>
              (NeverSettles, db',
               [ExecuteOperation operation (Resolved u);
                MarkOperationComplete (id operation) NeverSettles])
          | (r, db') =>
              prepend_calls [ExecuteOperation operation (Resolved u);
                             MarkOperationComplete (id operation) r]
                            (drain_loop db' rest)
          end
      | Rejected e =>
          prepend_calls [ExecuteOperation operation (Rejected e)] (drain_loop db rest)
      | NeverSettles => (NeverSettles, db, [ExecuteOperation operation NeverSettles])
      end
  end.

(** Messages from the worker to its clients. *)
Inductive Message : Type :=
  | SYNC_COMPLETE (count : nat).

(** What the worker lives in: the database on disk, the clients
    [self.clients.matchAll()] answers with, and the messages posted to
    them so far. *)
Record World : Type := mkWorld {
  indexedDB : option IDBDatabase;
  clients : list string;
  posted : list (string * Message)
}.

(** A run of [syncPendingOperations]: how its promise settled, the world
    afterwards, and the calls of the loop in order. *)
Record SyncRun : Type := mkSyncRun {
  settled : Settled unit;
  world : World;
  calls : list Call
}.

(** [syncPendingOperations()] *)
Definition syncPendingOperations (w : World) : SyncRun :=
  match openDatabase (indexedDB w) with
  | (Resolved db, disk) =>
      match getPendingOperations db with
      | Resolved operations =>
          match drain_loop db operations with
          | (Resolved _, db', cs) =>
              (* clients.forEach(client => client.postMessage(...)) *)
              let messages :=
                List.map (fun client => (client, SYNC_COMPLETE (length operations)))
                         (clients w) in
              {| settled := Resolved tt;
                 world := {| indexedDB := Some db'; clients := clients w;
                             posted := (posted w ++ messages)%list |};
                 calls := cs |}
          | (Rejected e, db', cs) =>
              (* outer catch *)
              {| settled := Resolved tt;
                 world := {| indexedDB := Some db'; clients := clients w;
                             posted := posted w |};
                 calls := cs |}
          | (NeverSettles, db', cs) =>
              {| settled := NeverSettles;
                 world := {| indexedDB := Some db'; clients := clients w;
                             posted := posted w |};
                 calls := cs |}
          end
      | Rejected e =>
          (* outer catch *)
          {| settled := Resolved tt;
             world := {| indexedDB := disk; clients := clients w; posted := posted w |};
             calls := [] |}
      | NeverSettles =>
          {| settled := NeverSettles;
             world := {| indexedDB := disk; clients := clients w; posted := posted w |};
             calls := [] |}
      end
  | (Rejected e, disk) =>
      (* outer catch *)
      {| settled := Resolved tt;
         world := {| indexedDB := disk; clients := clients w; posted := posted w |};
         calls := [] |}
  | (NeverSettles, disk) =>
      {| settled := NeverSettles;
         world := {| indexedDB := disk; clients := clients w; posted := posted w |};
         calls := [] |}
  end.

(** *** Numbers

    A JavaScript number is a double: a rational with at most 53
    significant bits. An arithmetic operation gives the double nearest to
    the exact result, a tie going to the even significand. Overflow and
    subnormal numbers are far from the sums met here and are not
    modelled. *)

(** The nearest integer, a tie going to the even one. *)
Definition round_half_even (q : Q) : Z :=
  let f := Qfloor q in
  match (q - inject_Z f ?= 1 # 2)%Q with
  | Lt => f
  | Gt => f + 1
  | Eq => if Z.even f then f else f + 1
  end.

(** The power of two at or below a positive rational: [floor (log2 x)]. *)
Definition binade (x : Q) : Z :=
  if Qle_bool 1 x then Z.log2 (Qfloor x) else - Z.log2_up (Qceiling (/ x)).

(** [x / 2^e] and [m * 2^e]. *)
Definition scale_down (x : Q) (e : Z) : Q :=
  if (e <=? 0)%Z then (x * inject_Z (2 ^ (- e)))%Q else (x / inject_Z (2 ^ e))%Q.

Definition scale_up (m : Z) (e : Z) : Q :=
  if (e <=? 0)%Z then (inject_Z m / inject_Z (2 ^ (- e)))%Q else inject_Z (m * 2 ^ e).

(** The double nearest to a positive rational: 53 bits are kept. *)
Definition round_positive (x : Q) : Q :=
  let e := binade x - 52 in
  scale_up (round_half_even (scale_down x e)) e.

(** The double nearest to a rational. *)
Definition to_double (x : Q) : Q :=
  match Qnum x with
  | Z0 => 0%Q
  | Zpos _ => round_positive x
  | Zneg _ => (- round_positive (- x))%Q
  end.

(** [a + b] on numbers. *)
Definition js_add (a b : Q) : Q := to_double (a + b).

(** *** Enqueueing *)

(** The readings one call of [storeOperationForSync] takes from the
    environment, in evaluation order: [Date.now()] and [Math.random()]
    for the key, [Date.now()] for the timestamp. *)
Record Tick : Type := mkTick {
  now_id : Z;
  random : Q;
  now_ts : Z
}.

(** [storeOperationForSync(operation)] (service-worker-patterns.md). Its
    [indexedDB.open] has no [onupgradeneeded]: on a fresh disk it creates
    a database without object stores. [db.transaction] then throws inside
    the [onsuccess] callback, where nothing settles the promise. *)
Definition storeOperationForSync (tick : Tick) (operation : Operation)
    (disk : option IDBDatabase) : Settled unit * option IDBDatabase :=
  let opened :=
    match disk with
    | None => Some {| version := 1; syncQueue := None |}
    | Some db => if (1 <? version db)%positive then None else Some db
    end in
  match opened with
  | None => (Rejected (DOMException "VersionError"), disk)
  | Some db =>
      match transaction_syncQueue db with
      | inl _ => (NeverSettles, Some db)
      | inr entries =>
          let syncOperation :=
            {| id := js_add (inject_Z (now_id tick)) (random tick);
               type := op_type operation;
               data := op_data operation;
               timestamp := now_ts tick |} in
          match store_add syncOperation entries with
          | Some entries' => (Resolved tt, Some (with_syncQueue db entries'))
          | None => (Rejected (DOMException "ConstraintError"), Some db)
          end
      end
  end.

(** A sequence of enqueue calls, one after the other. *)
Fixpoint enqueue_all (calls : list (Tick * Operation)) (disk : option IDBDatabase)
  : list (Settled unit) * option IDBDatabase :=
  match calls with
  | [] => ([], disk)
  | (tick, operation) :: rest =>
      let (r, disk') := storeOperationForSync tick operation disk in
      let (rs, disk'') := enqueue_all rest disk' in
      (r :: rs, disk'')
  end.

(** The record a call stores. *)
Definition stored (call : Tick * Operation) : SyncOperation :=
  {| id := js_add (inject_Z (now_id (fst call))) (random (fst call));
     type := op_type (snd call);
     data := op_data (snd call);
     timestamp := now_ts (fst call) |}.

(** The drain read on a disk: what [getPendingOperations] returns for the
    database the worker opens. *)
Definition pending (disk : option IDBDatabase) : Settled (list SyncOperation) :=
  match fst (openDatabase disk) with
  | Resolved db => getPendingOperations db
  | Rejected e => Rejected e
  | NeverSettles => NeverSettles
  end.

(** *** Vocabulary of the statements *)

(** The records of an object store are in strictly ascending key order. *)
Definition key_lt (a b : SyncOperation) : Prop := (id a < id b)%Q.
Definition store_ok (entries : list SyncOperation) : Prop := StronglySorted key_lt entries.

(** Whether [executeOperation] fulfils its promise for the operation. *)
Definition succeeds (operation : SyncOperation) : bool :=
  match executeOperation operation with
  | Resolved _ => true
  | _ => false
  end.

(** The calls the loop makes for one operation: [markOperationComplete]
    follows only an execution that succeeded. *)
Definition calls_for (operation : SyncOperation) : list Call :=
  if succeeds operation
  then [ExecuteOperation operation (Resolved tt);
        MarkOperationComplete (id operation) (Resolved tt)]
  else [ExecuteOperation operation (executeOperation operation)].

(** The operations a list of calls executed, in order. *)
Definition executed (cs : list Call) : list SyncOperation :=
  flat_map (fun c => match c with
                     | ExecuteOperation operation _ => [operation]
                     | MarkOperationComplete _ _ => []
                     end) cs.

(** The database after the loop: every operation that succeeded has been
    passed to [markOperationComplete]. *)
Definition drained (db : IDBDatabase) (operations : list SyncOperation) : IDBDatabase :=
  fold_left
    (fun db operation =>
       if succeeds operation
       then snd (markOperationComplete db (KeyNumber (id operation)))
       else db)
    operations db.

(** [Math.random()] answers in the interval from 0 (included) to 1
    (excluded). *)
Definition random_ok (calls : list (Tick * Operation)) : Prop :=
  Forall (fun call => (0 <= random (fst call) /\ random (fst call) < 1)%Q) calls.

(** Every call reads a later clock value than the calls before it. *)
Definition later_call (a b : Tick * Operation) : Prop :=
  now_id (fst a) < now_id (fst b) /\ now_ts (fst a) < now_ts (fst b).
Definition clock_advances (calls : list (Tick * Operation)) : Prop :=
  StronglySorted later_call calls.

(** [Date.now()] gives a whole number of milliseconds since the epoch; the
    clock is past the epoch and below 2^53 (the largest time value is
    8.64e15). *)
Definition clock_ok (calls : list (Tick * Operation)) : Prop :=
  Forall (fun call => 1 <= now_id (fst call) < 2 ^ 53) calls.

(** Every call reads a clock value at least two milliseconds after the
    calls before it. *)
Definition two_ms_later (a b : Tick * Operation) : Prop :=
  now_id (fst a) + 2 <= now_id (fst b).
Definition two_ms_apart (calls : list (Tick * Operation)) : Prop :=
  StronglySorted two_ms_later calls.

(** The calls whose promise was fulfilled, given how each call settled. *)
Fixpoint kept (calls : list (Tick * Operation)) (results : list (Settled unit))
  : list (Tick * Operation) :=
  match calls, results with
  | call :: calls', Resolved _ :: results' => call :: kept calls' results'
  | _ :: calls', _ :: results' => kept calls' results'
  | _, _ => []
  end.

(** How an enqueue on an open database can end. *)
Definition stored_or_refused (r : Settled unit) : Prop :=
  r = Resolved tt \/ r = Rejected (DOMException "ConstraintError").

(** *** Concrete inputs used below *)

Definition empty_db : IDBDatabase := {| version := 1; syncQueue := Some [] |}.
Definition db_without_store : IDBDatabase := {| version := 1; syncQueue := None |}.

Definition create_milk : Operation :=
  {| op_type := "CREATE_TASK"; op_data := "{title: 'Buy milk'}" |}.
Definition update_milk : Operation :=
  {| op_type := "UPDATE_TASK"; op_data := "{title: 'Buy oat milk'}" |}.

(** Two calls within the same millisecond. *)
Definition same_ms_calls : list (Tick * Operation) :=
  [ ({| now_id := 1000; random := 3 # 4; now_ts := 1000 |}, create_milk);
    ({| now_id := 1000; random := 1 # 4; now_ts := 1000 |}, update_milk) ].

(** Two calls one millisecond apart. *)
Definition spaced_calls : list (Tick * Operation) :=
  [ ({| now_id := 1000; random := 3 # 4; now_ts := 1000 |}, create_milk);
    ({| now_id := 1001; random := 1 # 4; now_ts := 1001 |}, update_milk) ].

(** Two calls one millisecond apart whose sums round to the same double:
    1730000000000 + (1 - 2^-20) and 1730000000001 + 2^-20. *)
Definition colliding_calls : list (Tick * Operation) :=
  [ ({| now_id := 1730000000000; random := 1048575 # 1048576;
        now_ts := 1730000000000 |}, create_milk);
    ({| now_id := 1730000000001; random := 1 # 1048576;
        now_ts := 1730000000001 |}, update_milk) ].

(** A queue with an operation of an unknown type between two known ones. *)
Definition mixed_queue : list SyncOperation :=
  [ {| id := 1; type := "CREATE_TASK"; data := "a"; timestamp := 1 |};
    {| id := 2; type := "RENAME_TASK"; data := "b"; timestamp := 2 |};
    {| id := 3; type := "DELETE_TASK"; data := "c"; timestamp := 3 |} ].

Definition milk_entry : SyncOperation :=
  {| id := 1000 + (3 # 4); type := "CREATE_TASK"; data := "{title: 'Buy milk'}";
     timestamp := 1000 |}.

Definition world_of (db : IDBDatabase) : World :=
  {| indexedDB := Some db; clients := ["tab-1"; "tab-2"]; posted := [] |}.

End Outbox.

(** ** What a fetch event leaves in the cache *)

Module CacheOutcome.
Import ServiceWorkerCache.

(** The cache after the network answered a request and the answer went
    through [if (response.ok) cache.put(request, response.clone())]. *)
Definition refreshed (net : Network) (c : Cache) (request : Request) : Cache :=
  match net request with
  | Resolved r => if ok r then cache_put (href (url request)) r c else c
  | _ => c
  end.

(** Every cached response is ok. *)
Definition all_ok (c : Cache) : Prop :=
  forall key r, c !! key = Some r -> ok r = true.

(** The cache once the worker is done with a fetch event. *)
Definition cache_after_event (location_origin : string) (net : Network) (c : Cache)
    (request : Request) : Cache :=
  cache_after c (listener_steps (fetch_listener location_origin net c request)).


End CacheOutcome.

(** ** Triggers of the drain: the 'sync' listener and the page side *)

Module OutboxTriggers.
Import Outbox.

(** [const SYNC_TAG = 'task-sync'] (sw.js) *)
Definition SYNC_TAG : string := "task-sync".

(** The 'sync' listener of the worker. [None]: the listener returned
    without calling [event.waitUntil]; [Some run]: it handed the run of
    [syncPendingOperations] to [waitUntil]. *)
Definition sync_listener (tag : string) (w : World) : option SyncRun :=
  if String.eqb tag SYNC_TAG then Some (syncPendingOperations w) else None.

(** Background sync as the page finds it: whether
    ['serviceWorker' in navigator && 'sync' in ServiceWorkerRegistration.prototype],
    whether [navigator.serviceWorker.ready] ever resolves (it does once a
    worker is active), and how [registration.sync.register(tag)] settles. *)
Record SyncManager : Type := mkSyncManager {
  sync_supported : bool;
  worker_ready : bool;
  register : string -> Settled unit
}.

(** [requestBackgroundSync(operation)] (service-worker-patterns.md): the
    promise, the database afterwards and the tags registered. Its
    [try]/[catch] logs every rejection and returns. *)
Definition requestBackgroundSync (sm : SyncManager) (tick : Tick) (operation : Operation)
    (disk : option IDBDatabase) : Settled unit * option IDBDatabase * list string :=
  match storeOperationForSync tick operation disk with
  | (Resolved _, disk') =>
      if sync_supported sm
      then if worker_ready sm
           then match register sm "task-sync" with
                | Resolved _ => (Resolved tt, disk', ["task-sync"])
                | Rejected _ => (Resolved tt, disk', [])     (* catch *)
                | NeverSettles => (NeverSettles, disk', [])
                end
           else (NeverSettles, disk', [])
      else (Resolved tt, disk', [])
  | (Rejected _, disk') => (Resolved tt, disk', [])          (* catch *)
  | (NeverSettles, disk') => (NeverSettles, disk', [])
  end.

(** The operations [createTaskWithSync] and [updateTaskWithSync] queue when
    the page is offline; the [timestamp] they carry is overwritten by
    [storeOperationForSync]. *)
Definition queued_create (savedTask : string) : Operation :=
  {| op_type := "CREATE_TASK"; op_data := savedTask |}.
Definition queued_update (update : string) : Operation :=
  {| op_type := "UPDATE_TASK"; op_data := update |}.

(** The object store of a database, if it exists, is in key order. *)
Definition db_ok (db : IDBDatabase) : Prop :=
  forall entries, syncQueue db = Some entries -> store_ok entries.
Definition disk_ok (disk : option IDBDatabase) : Prop :=
  forall db, disk = Some db -> db_ok db.

(** A page with working background sync. *)
Definition sync_manager_ok : SyncManager :=
  {| sync_supported := true; worker_ready := true; register := fun _ => Resolved tt |}.

Definition milk_tick : Tick := {| now_id := 1000; random := 3 # 4; now_ts := 1000 |}.

End OutboxTriggers.

(** ** Push notifications (sw.js, 'push' listener) *)

Module PushListener.
Import NotificationClick.

(** [event.data] of a push event, when there is one: a message whose
    [json()] gives a value, or a message that is not JSON, for which
    [json()] throws. *)
Inductive PushMessageData : Type :=
  | PushJson (v : JsValue)
  | PushNotJson.

Record NotificationAction : Type := mkAction {
  action : string;
  action_title : string
}.

(** The options handed to [showNotification]. *)
Record NotificationOptions : Type := mkOptions {
  body : JsValue;
  icon : string;
  badge : string;
  vibrate : list Z;
  data : JsValue;
  actions : list NotificationAction
}.

(** [event.waitUntil(self.registration.showNotification(title, options))] *)
Inductive PushEffect : Type :=
  | ShowNotification (title : JsValue) (options : NotificationOptions).

(** The 'push' listener. *)
Definition push (event_data : option PushMessageData) : list PushEffect * Completion :=
  match event_data with
  | None => ([], Normal)                                   (* if (!event.data) return; *)
  | Some PushNotJson => ([], Throw (ErrorObj "SyntaxError: Unexpected token"))
  | Some (PushJson payload) =>
      match getProp payload "body", getProp payload "data", getProp payload "title" with
      | inl e, _, _ | _, inl e, _ | _, _, inl e => ([], Throw e)
      | inr b, inr d, inr t =>
          ([ShowNotification t
              {| body := b;
                 icon := "/icon-192x192.png";
                 badge := "/badge-72x72.png";
                 vibrate := [100; 50; 100];
                 data := d;
                 actions := [ {| action := "complete"; action_title := "Mark Complete" |};
                              {| action := "view"; action_title := "View Task" |} ] |}],
           Normal)
      end
  end.

(** The notificationclick event the browser dispatches when the user picks
    an action of a notification shown with the given options. *)
Definition click_on (options : NotificationOptions) (chosen : string) : JsValue :=
  NotificationEvent chosen (data options).

End PushListener.

(** ** The worker template (service-worker-patterns.md, generateServiceWorkerCode) *)

Module TemplateWorker.
Import Outbox.

(** [openDatabase()] of the template: no [onupgradeneeded], so a database
    it creates has no object store. *)
Definition openDatabase (disk : option IDBDatabase)
  : Settled IDBDatabase * option IDBDatabase :=
  match disk with
  | None =>
      let db := {| version := 1; syncQueue := None |} in
      (Resolved db, Some db)
  | Some db =>
      if (1 <? version db)%positive
      then (Rejected (DOMException "VersionError"), Some db)
      else (Resolved db, Some db)
  end.

(** [getPendingOperations(db)] of the template: no guard and no [try]; an
    exception thrown in the executor rejects the promise. *)
Definition getPendingOperations (db : IDBDatabase) : Settled (list SyncOperation) :=
  match transaction_syncQueue db with
  | inl e => Rejected e
  | inr entries => Resolved entries
  end.

(** [markOperationComplete(db, operationId)] of the template. *)
Definition markOperationComplete (db : IDBDatabase) (operationId : JsKey)
  : Settled unit * IDBDatabase :=
  match transaction_syncQueue db with
  | inl e => (Rejected e, db)
  | inr entries =>
      match operationId with
      | NotAKey => (Rejected (DOMException "DataError"), db)
      | KeyNumber key => (Resolved tt, with_syncQueue db (store_delete key entries))
      end
  end.

(** The loop of the template's [syncPendingOperations]; [executeOperation]
    and the three sync functions are the ones of sw.js, word for word. *)
Fixpoint drain_loop (db : IDBDatabase) (operations : list SyncOperation)
  : Settled unit * IDBDatabase * list Call :=
  match operations with
  | [] => (Resolved tt, db, [])
  | operation :: rest =>
      match executeOperation operation with
      | Resolved u =>
          match markOperationComplete db (KeyNumber (id operation)) with
          | (NeverSettles, db') =>
              (NeverSettles, db',
               [ExecuteOperation operation (Resolved u);
                MarkOperationComplete (id operation) NeverSettles])
          | (r, db') =>
              prepend_calls [ExecuteOperation operation (Resolved u);
                             MarkOperationComplete (id operation) r]
                            (drain_loop db' rest)
          end
      | Rejected e =>
          prepend_calls [ExecuteOperation operation (Rejected e)] (drain_loop db rest)
      | NeverSettles => (NeverSettles, db, [ExecuteOperation operation NeverSettles])
      end
  end.

(** [syncPendingOperations()] of the template. *)
Definition syncPendingOperations (w : World) : SyncRun :=
  match openDatabase (indexedDB w) with
  | (Resolved db, disk) =>
      match getPendingOperations db with
      | Resolved operations =>
          match drain_loop db operations with
          | (Resolved _, db', cs) =>
              let messages :=
                List.map (fun client => (client, SYNC_COMPLETE (length operations)))
                         (clients w) in
              {| settled := Resolved tt;
                 world := {| indexedDB := Some db'; clients := clients w;
                             posted := (posted w ++ messages)%list |};
                 calls := cs |}
          | (Rejected e, db', cs) =>
              {| settled := Resolved tt;
                 world := {| indexedDB := Some db'; clients := clients w;
                             posted := posted w |};
                 calls := cs |}
          | (NeverSettles, db', cs) =>
              {| settled := NeverSettles;
                 world := {| indexedDB := Some db'; clients := clients w;
                             posted := posted w |};
                 calls := cs |}
          end
      | Rejected e =>
          (* outer catch *)
          {| settled := Resolved tt;
             world := {| indexedDB := disk; clients := clients w; posted := posted w |};
             calls := [] |}
      | NeverSettles =>
          {| settled := NeverSettles;
             world := {| indexedDB := disk; clients := clients w; posted := posted w |};
             calls := [] |}
      end
  | (Rejected e, disk) =>
      {| settled := Resolved tt;
         world := {| indexedDB := disk; clients := clients w; posted := posted w |};
         calls := [] |}
  | (NeverSettles, disk) =>
      {| settled := NeverSettles;
         world := {| indexedDB := disk; clients := clients w; posted := posted w |};
         calls := [] |}
  end.

End TemplateWorker.

(** ** Input sanitizer (technical-research.md, class InputSanitizer) *)

Module InputSanitizer.

(** A JavaScript string is a sequence of UTF-16 code units. *)
Abbreviation CodeUnits := (list Z).

(** The code units of an ASCII literal. *)
Definition units (s : string) : CodeUnits :=
  List.map (fun a => Z.of_N (Ascii.N_of_ascii a)) (String.list_ascii_of_string s).

(** How the HTML serializer writes one code unit of a text node. *)
Definition escape (u : Z) : CodeUnits :=
  if (u =? 38)%Z then units "&amp;"
  else if (u =? 160)%Z then units "&nbsp;"
  else if (u =? 60)%Z then units "&lt;"
  else if (u =? 62)%Z then units "&gt;"
  else [u].

(** [sanitizeHTML(input)]: [div.textContent = input; return div.innerHTML]. *)
Definition sanitizeHTML (input : CodeUnits) : CodeUnits := flat_map escape input.

(** White space and line terminators, as [String.prototype.trim] sees them. *)
Definition is_white_space (u : Z) : bool :=
  (u =? 9)%Z || (u =? 10)%Z || (u =? 11)%Z || (u =? 12)%Z || (u =? 13)%Z || (u =? 32)%Z
  || (u =? 160)%Z || (u =? 5760)%Z || ((8192 <=? u)%Z && (u <=? 8202)%Z)
  || (u =? 8232)%Z || (u =? 8233)%Z || (u =? 8239)%Z || (u =? 8287)%Z || (u =? 12288)%Z
  || (u =? 65279)%Z.

Fixpoint trimStart (s : CodeUnits) : CodeUnits :=
  match s with
  | [] => []
  | u :: rest => if is_white_space u then trimStart rest else s
  end.

(** [s.trim()] *)
Definition trim (s : CodeUnits) : CodeUnits := rev (trimStart (rev (trimStart s))).

(** The fields [validateTaskData] reads. [None]: the field is [undefined]
    (for [priority] and [status]: any value that is not a string). *)
Record TaskData : Type := mkTaskData {
  title : option CodeUnits;
  description : option CodeUnits;
  priority : option CodeUnits;
  status : option CodeUnits
}.

Record Sanitized : Type := mkSanitized {
  s_title : CodeUnits;
  s_description : CodeUnits;
  s_priority : CodeUnits;
  s_status : CodeUnits
}.

Definition priorities : list CodeUnits :=
  [units "low"; units "medium"; units "high"; units "urgent"].
Definition statuses : list CodeUnits :=
  [units "pending"; units "completed"; units "archived"].

(** [list.includes(value) ? value : fallback] *)
Definition one_of (allowed : list CodeUnits) (value : option CodeUnits)
    (fallback : CodeUnits) : CodeUnits :=
  match value with
  | Some v => if bool_decide (v ∈ allowed) then v else fallback
  | None => fallback
  end.

(** [data.field?.trim() || ''] *)
Definition trimmed (field : option CodeUnits) : CodeUnits :=
  match field with
  | Some s => trim s
  | None => []
  end.

(** [validateTaskData(data)] *)
Definition validateTaskData (data : TaskData) : JsError + Sanitized :=
  let sanitized :=
    {| s_title := sanitizeHTML (trimmed (title data));
       s_description := sanitizeHTML (trimmed (description data));
       s_priority := one_of priorities (priority data) (units "medium");
       s_status := one_of statuses (status data) (units "pending") |} in
  match s_title sanitized with
  | [] => inl (ErrorObj "Title is required and must be less than 200 characters")
  | _ :: _ =>
      if (200 <? length (s_title sanitized))%nat
      then inl (ErrorObj "Title is required and must be less than 200 characters")
      else inr sanitized
  end.

(** The length the serializer gives a string: four more units for every
    ampersand, five for every no-break space, three for every angle
    bracket. *)
Definition escaped_length (s : CodeUnits) : nat :=
  (length s + 4 * count_occ Z.eq_dec s 38%Z + 5 * count_occ Z.eq_dec s 160%Z
   + 3 * count_occ Z.eq_dec s 60%Z + 3 * count_occ Z.eq_dec s 62%Z)%nat.

(** A code unit the serializer writes as it is. *)
Definition plain (u : Z) : Prop := u <> 38 /\ u <> 160 /\ u <> 60 /\ u <> 62.

End InputSanitizer.

(** ** Test framework (technical-research.md, class SimpleTestFramework) *)

Module SimpleTestFramework.

Record Results : Type := mkResults {
  passed : nat;
  failed : nat
}.

(** What a test throws, or rejects its promise with. Any value can be
    thrown; what matters to [run()] is whether a property can be read from
    it. *)
Inductive Thrown : Type :=
  | ThrownError (e : JsError)       (* an Error object, as [assert] throws *)
  | ThrownPrimitive (s : string)    (* a string, number or boolean *)
  | ThrownUndefined
  | ThrownNull.

(** How [await test.fn()] ends in the run at hand. *)
Inductive Outcome : Type :=
  | Fulfils
  | Throws (reason : Thrown)
  | Pending.

(** A registered test: its name and how [await test.fn()] ends. A test
    does not register further tests while it runs. *)
Record Test : Type := mkTest {
  name : string;
  fn : Outcome
}.

Record Framework : Type := mkFramework {
  tests : list Test;
  results : Results
}.

(** [test(name, fn)] *)
Definition test (t : Test) (fw : Framework) : Framework :=
  {| tests := (tests fw ++ [t])%list; results := results fw |}.

(** [error.message] in the catch clause: reading a property of
    [undefined] or [null] throws a TypeError, reading it from any other
    value does not. *)
Definition read_message (error : Thrown) : Completion :=
  match error with
  | ThrownError _ | ThrownPrimitive _ => Normal
  | ThrownUndefined =>
      Throw (TypeError "Cannot read properties of undefined (reading 'message')")
  | ThrownNull =>
      Throw (TypeError "Cannot read properties of null (reading 'message')")
  end.

(** The [for (const test of this.tests)] loop of [run()]. What the catch
    clause throws itself is caught by nothing: it rejects the promise of
    [run()] before [failed] is raised, and the loop ends there. *)
Fixpoint run_tests (ts : list Test) (r : Results) : Settled unit * Results :=
  match ts with
  | [] => (Resolved tt, r)
  | t :: rest =>
      match fn t with
      | Fulfils => run_tests rest {| passed := S (passed r); failed := failed r |}
      | Throws error =>
          match read_message error with
          | Normal => run_tests rest {| passed := passed r; failed := S (failed r) |}
          | Throw e => (Rejected e, r)
          end
      | Pending => (NeverSettles, r)
      end
  end.

(** [run()] *)
Definition run (fw : Framework) : Settled unit * Framework :=
  let (s, r) := run_tests (tests fw) (results fw) in
  (s, {| tests := tests fw; results := r |}).


End SimpleTestFramework.

(** ** Application state (technical-research.md, class AppState) *)

Module AppState.

Section Store.

(** The values kept in the state object. *)
Variable V : Type.

(** The state object and the subscribed callbacks, in subscription order.
    A callback is known by its identity; it observes the state it is
    called with and does not call back into the store. *)
Record Store : Type := mkStore {
  state : gmap string V;
  subscribers : list nat
}.

(** [subscribe(callback)] *)
Definition subscribe (callback : nat) (s : Store) : Store :=
  {| state := state s; subscribers := (subscribers s ++ [callback])%list |}.

(** The function [subscribe] returns:
    [this.subscribers = this.subscribers.filter(sub => sub !== callback)]. *)
Definition unsubscribe (callback : nat) (s : Store) : Store :=
  {| state := state s;
     subscribers := List.filter (fun sub => negb (Nat.eqb sub callback)) (subscribers s) |}.

(** [notifySubscribers()]: the calls made, in order. *)
Definition notifySubscribers (s : Store) : list (nat * gmap string V) :=
  List.map (fun callback => (callback, state s)) (subscribers s).

(** [setState(updates)]: [{ ...this.state, ...updates }], then the calls. *)
Definition setState (updates : gmap string V) (s : Store)
  : Store * list (nat * gmap string V) :=
  let s' := {| state := updates ∪ state s; subscribers := subscribers s |} in
  (s', notifySubscribers s').

End Store.

Arguments state {V} s.
Arguments subscribers {V} s.
Arguments subscribe {V} callback s.
Arguments unsubscribe {V} callback s.
Arguments notifySubscribers {V} s.
Arguments setState {V} updates s.

End AppState.

(** * Properties *)

Module ResolverFacts.
Import ConflictResolver.

Lemma resolveStatusConflict_completed l r :
  l = "completed" \/ r = "completed" ->
  resolveStatusConflict l r = "completed".
Proof.
  intros [-> | ->]; unfold resolveStatusConflict.
  - reflexivity.
  - rewrite String.eqb_refl, orb_true_r. reflexivity.
Qed.

(** On the merge path (the remote record is at least as recent) no record
    is returned: the call of the undefined method throws. *)
Lemma resolveTaskConflict_merge_throws (localTask remoteTask : Task) :
  modifiedAt localTask <= modifiedAt remoteTask ->
  resolveTaskConflict localTask remoteTask
  = inl (TypeError "this.resolvePriorityConflict is not a function").
Proof.
  intros Hle. unfold resolveTaskConflict.
  destruct (Z.ltb_spec (modifiedAt remoteTask) (modifiedAt localTask)); [lia|].
  reflexivity.
Qed.

(** When the local record is strictly more recent it is returned as it is. *)
Lemma resolveTaskConflict_local_newer (localTask remoteTask : Task) :
  modifiedAt remoteTask < modifiedAt localTask ->
  resolveTaskConflict localTask remoteTask = inr localTask.
Proof.
  intros Hlt. unfold resolveTaskConflict.
  destruct (Z.ltb_spec (modifiedAt remoteTask) (modifiedAt localTask)); [reflexivity|lia].
Qed.

(** C1 (evaluation at the scenario of the spec): with a local record
    [status "pending", modifiedAt 100] and a remote record
    [status "completed", modifiedAt 90], one side is completed, yet
    [resolveTaskConflict] returns the local record as it is, and the merged
    status is "pending". *)
Theorem resolveTaskConflict_scenario_returns_pending :
  status scenario_remote = "completed" /\
  resolveTaskConflict scenario_local scenario_remote = inr scenario_local /\
  exists merged,
    resolveTaskConflict scenario_local scenario_remote = inr merged /\
    status merged = "pending".
Proof.
  split; [reflexivity|].
  assert (H : resolveTaskConflict scenario_local scenario_remote = inr scenario_local)
    by (apply resolveTaskConflict_local_newer; simpl; lia).
  split; [exact H|].
  exists scenario_local. split; [exact H | reflexivity].
Qed.

End ResolverFacts.

Module NotificationFacts.
Import NotificationClick.

(** Even when the event object itself carries a [data] object, the
    'complete' action ends in the ReferenceError. *)
Lemma notificationclick_own_data_complete notification payload :
  notificationclick
    (JsObject [("notification", JsObject notification);
               ("action", JsString "complete");
               ("data", JsObject payload)])
  = ([NotificationClose], Throw (ReferenceError "handleTaskComplete is not defined")).
Proof. reflexivity. Qed.

(** When the event object itself carries a [data] object, the 'view' action
    opens the window of its [taskId]. *)
Lemma notificationclick_own_data_view notification payload :
  notificationclick
    (JsObject [("notification", JsObject notification);
               ("action", JsString "view");
               ("data", JsObject payload)])
  = ([NotificationClose;
      WaitUntilOpenWindow ("/?task=" ++ toString (lookup_prop "taskId" payload))],
     Normal).
Proof. reflexivity. Qed.

(** C2 (evaluation on the events the browser dispatches): for a
    notification whose payload data holds a taskId, a click on 'complete'
    closes the notification and then throws a ReferenceError, because the
    worker defines no [handleTaskComplete]; a click on 'view' closes the
    notification and then throws a TypeError, because the listener reads
    [data] from the event and not from [event.notification]. No task is
    completed and no window is opened. *)
Theorem notificationclick_browser_event_throws :
  forall taskId : string,
    notificationclick (NotificationEvent "complete" (payload_of taskId))
      = ([NotificationClose],
         Throw (ReferenceError "handleTaskComplete is not defined")) /\
    notificationclick (NotificationEvent "view" (payload_of taskId))
      = ([NotificationClose],
         Throw (TypeError "Cannot read properties of undefined (reading 'taskId')")).
Proof. intros taskId. split; reflexivity. Qed.

End NotificationFacts.

Module CacheFacts.
Import ServiceWorkerCache.

Lemma cache_after_app (c : Cache) (xs ys : list Step) :
  cache_after c (xs ++ ys) = cache_after (cache_after c xs) ys.
Proof. unfold cache_after. apply fold_left_app. Qed.

Lemma cache_after_put_if_ok_true (c : Cache) key r :
  ok r = true -> cache_after c (put_if_ok key r) = cache_put key r c.
Proof. intros H. unfold put_if_ok. rewrite H. reflexivity. Qed.

Lemma cache_after_put_if_ok_false (c : Cache) key r :
  ok r = false -> cache_after c (put_if_ok key r) = c.
Proof. intros H. unfold put_if_ok. rewrite H. reflexivity. Qed.

Lemma cache_put_lookup (c : Cache) key r :
  status r <> 206 -> cache_put key r c !! key = Some r.
Proof.
  intros H. unfold cache_put.
  destruct (Z.eqb_spec (status r) 206); [contradiction|].
  apply lookup_insert_eq.
Qed.

(** C10: a fetch event whose method is not GET, or whose origin is not the
    worker's, gets no [respondWith]: no strategy runs, the worker issues no
    cache or network step, and the cache stays as it was. *)
Theorem fetch_listener_passthrough :
  forall (location_origin : string) (net : Network) (c : Cache) (request : Request),
    method request <> "GET" \/ origin (url request) <> location_origin ->
    fetch_listener location_origin net c request = None /\
    listener_steps (fetch_listener location_origin net c request) = [] /\
    cache_after c (listener_steps (fetch_listener location_origin net c request)) = c.
Proof.
  intros loc net c request H.
  assert (Hnone : fetch_listener loc net c request = None).
  { unfold fetch_listener.
    destruct H as [H | H]; apply String.eqb_neq in H; rewrite H; simpl.
    - reflexivity.
    - rewrite orb_true_r. reflexivity. }
  rewrite Hnone. repeat split.
Qed.

Lemma fetch_listener_passthrough_witness :
  fetch_listener "https://app.example" net_up cache_old
    {| method := "POST"; url := url request_api |} = None /\
  listener_steps (fetch_listener "https://app.example" net_up cache_old
    {| method := "POST"; url := url request_api |}) = [] /\
  cache_after cache_old (listener_steps (fetch_listener "https://app.example" net_up cache_old
    {| method := "POST"; url := url request_api |})) = cache_old.
Proof.
  apply (fetch_listener_passthrough "https://app.example" net_up cache_old
           {| method := "POST"; url := url request_api |}).
  left. simpl. discriminate.
Defined.

(** *** network-first *)

(** The claim of C6 fails on a fetch that resolves with a response that is
    not ok: the promise of [fetch] is fulfilled with the 404, the 404 is
    returned, and the cache still holds the older response. *)
Lemma networkFirstStrategy_404_keeps_cache :
  let run := networkFirstStrategy net_404 cache_old request_api in
  net_404 request_api = Resolved response_404 /\
  snd run = Resolved response_404 /\
  fst run = [Fetch (href (url request_api)); Return] /\
  cache_after cache_old (fst run) !! href (url request_api) = Some response_old /\
  response_old <> response_404.
Proof.
  cbv zeta. split; [reflexivity|]. split; [reflexivity|]. split; [reflexivity|].
  split; [vm_compute; reflexivity | discriminate].
Qed.

(** C6 (amended): the run of [networkFirstStrategy] starts with the
    fetch. When the fetch resolves, its response is returned and the cache
    is not read; [cache.put] is issued before the return exactly when the
    response is ok, and the entry then holds the response (unless the
    status is 206, which the Cache API refuses); a response that is not ok
    leaves the cache as it was. When the fetch rejects, the cache is read
    next and the cached response is returned if there is one, a 503
    response otherwise. *)
Theorem networkFirstStrategy_behaviour :
  forall (net : Network) (c : Cache) (request : Request),
    let key := href (url request) in
    let run := networkFirstStrategy net c request in
    head (fst run) = Some (Fetch key) /\
    (forall r, net request = Resolved r ->
       snd run = Resolved r /\ ~ In (CacheMatch key) (fst run)) /\
    (forall r, net request = Resolved r -> ok r = true ->
       fst run = [Fetch key; CachePut key r; Return] /\
       cache_after c (fst run) = cache_put key r c /\
       (status r <> 206 -> cache_after c (fst run) !! key = Some r)) /\
    (forall r, net request = Resolved r -> ok r = false ->
       fst run = [Fetch key; Return] /\ cache_after c (fst run) = c) /\
    (forall e, net request = Rejected e ->
       fst run = [Fetch key; CacheMatch key; Return] /\ cache_after c (fst run) = c) /\
    (forall e cached, net request = Rejected e -> c !! key = Some cached ->
       snd run = Resolved cached) /\
    (forall e, net request = Rejected e -> c !! key = None ->
       snd run = Resolved {| status := 503; body := "Network error" |}).
Proof.
  intros net c request key run. subst run. unfold networkFirstStrategy. fold key.
  split; [destruct (net request); [reflexivity | destruct (c !! key); reflexivity | reflexivity]|].
  split.
  { intros r Hr. rewrite Hr. split; [reflexivity|].
    unfold put_if_ok. destruct (ok r); simpl; intros H; intuition discriminate. }
  split.
  { intros r Hr Hok. rewrite Hr. unfold put_if_ok. rewrite Hok. simpl.
    split; [reflexivity|]. split; [reflexivity|].
    intros H206. apply cache_put_lookup, H206. }
  split.
  { intros r Hr Hok. rewrite Hr. unfold put_if_ok. rewrite Hok. split; reflexivity. }
  split.
  { intros e He. rewrite He. destruct (c !! key); split; reflexivity. }
  split.
  { intros e cached He Hc. rewrite He, Hc. reflexivity. }
  intros e He Hc. rewrite He, Hc. reflexivity.
Qed.

Lemma cache_old_lookup : cache_old !! href (url request_api) = Some response_old.
Proof. apply lookup_singleton_eq. Qed.

Lemma networkFirstStrategy_behaviour_witness :
  snd (networkFirstStrategy net_up cache_old request_api) = Resolved response_new /\
  cache_after cache_old (fst (networkFirstStrategy net_up cache_old request_api))
    !! href (url request_api) = Some response_new /\
  snd (networkFirstStrategy net_down cache_old request_api) = Resolved response_old /\
  snd (networkFirstStrategy net_down ∅ request_api)
  = Resolved {| status := 503; body := "Network error" |}.
Proof.
  destruct (networkFirstStrategy_behaviour net_up cache_old request_api)
    as (_ & Hup & Hok & _).
  destruct (networkFirstStrategy_behaviour net_down cache_old request_api)
    as (_ & _ & _ & _ & _ & Hhit & _).
  destruct (networkFirstStrategy_behaviour net_down ∅ request_api)
    as (_ & _ & _ & _ & _ & _ & Hmiss).
  split; [apply (Hup response_new eq_refl)|].
  split.
  { destruct (Hok response_new eq_refl eq_refl) as (_ & _ & H). apply H. discriminate. }
  split; [apply (Hhit (TypeError "Failed to fetch") response_old eq_refl cache_old_lookup)|].
  apply (Hmiss (TypeError "Failed to fetch") eq_refl). apply lookup_empty.
Defined.

(** *** cache-first *)

(** The claim of C7 fails on a cache miss answered by a response that is
    not ok: the 404 is returned and the cache is still empty. *)
Lemma cacheFirstStrategy_miss_404_not_cached :
  let run := cacheFirstStrategy net_404 ∅ request_static in
  (∅ : Cache) !! href (url request_static) = None /\
  snd run = Resolved response_404 /\
  fst run = [CacheMatch (href (url request_static)); Fetch (href (url request_static)); Return] /\
  cache_after ∅ (fst run) !! href (url request_static) = None.
Proof.
  cbv zeta. repeat split; vm_compute; reflexivity.
Qed.

(** C7 (amended): on a hit [cacheFirstStrategy] returns the cached
    response whatever the network does, after issuing a fetch whose
    response, when it arrives and is ok, is put in the cache in the
    background. On a miss the response of the network is returned; when it
    is ok, [cache.put] is issued before the return and the entry then holds
    it (unless the status is 206), and when it is not ok the cache is left
    as it was. *)
Theorem cacheFirstStrategy_behaviour :
  forall (net : Network) (c : Cache) (request : Request),
    let key := href (url request) in
    let run := cacheFirstStrategy net c request in
    (forall cached, c !! key = Some cached ->
       snd run = Resolved cached /\
       exists background,
         fst run = ([CacheMatch key; Fetch key; Return] ++ background)%list /\
         background = match net request with
                      | Resolved r => if ok r then [CachePut key r] else []
                      | _ => []
                      end) /\
    (forall r, c !! key = None -> net request = Resolved r -> ok r = true ->
       snd run = Resolved r /\
       fst run = [CacheMatch key; Fetch key; CachePut key r; Return] /\
       cache_after c (fst run) = cache_put key r c /\
       (status r <> 206 -> cache_after c (fst run) !! key = Some r)) /\
    (forall r, c !! key = None -> net request = Resolved r -> ok r = false ->
       snd run = Resolved r /\
       fst run = [CacheMatch key; Fetch key; Return] /\
       cache_after c (fst run) = c).
Proof.
  intros net c request key run. subst run. unfold cacheFirstStrategy. fold key.
  split.
  { intros cached Hc. rewrite Hc. split; [reflexivity|].
    eexists. split; [reflexivity|]. reflexivity. }
  split.
  { intros r Hc Hr Hok. rewrite Hc, Hr. unfold put_if_ok. rewrite Hok. simpl.
    split; [reflexivity|]. split; [reflexivity|]. split; [reflexivity|].
    intros H206. apply cache_put_lookup, H206. }
  intros r Hc Hr Hok. rewrite Hc, Hr. unfold put_if_ok. rewrite Hok.
  repeat split.
Qed.

Lemma cacheFirstStrategy_behaviour_witness :
  snd (cacheFirstStrategy net_down cache_old request_api) = Resolved response_old /\
  snd (cacheFirstStrategy net_up ∅ request_static) = Resolved response_new /\
  cache_after ∅ (fst (cacheFirstStrategy net_up ∅ request_static))
    !! href (url request_static) = Some response_new /\
  cache_after ∅ (fst (cacheFirstStrategy net_404 ∅ request_static)) = ∅.
Proof.
  destruct (cacheFirstStrategy_behaviour net_down cache_old request_api) as (Hhit & _).
  destruct (cacheFirstStrategy_behaviour net_up ∅ request_static) as (_ & Hok & _).
  destruct (cacheFirstStrategy_behaviour net_404 ∅ request_static) as (_ & _ & Hnot).
  split; [apply (Hhit response_old cache_old_lookup)|].
  destruct (Hok response_new (lookup_empty _) eq_refl eq_refl) as (Hr & _ & _ & Hc).
  split; [exact Hr|]. split; [apply Hc; discriminate|].
  apply (Hnot response_404 (lookup_empty _) eq_refl eq_refl).
Defined.

(** With a value cached and the network failing, cache-first and
    stale-while-revalidate return the cached value. *)
Lemma cached_value_served_when_network_fails (net : Network) (c : Cache) request cached e :
  c !! href (url request) = Some cached ->
  net request = Rejected e ->
  snd (cacheFirstStrategy net c request) = Resolved cached /\
  snd (staleWhileRevalidateStrategy net c request) = Resolved cached.
Proof.
  intros Hc He. unfold cacheFirstStrategy, staleWhileRevalidateStrategy.
  rewrite Hc. split; reflexivity.
Qed.

End CacheFacts.

Module OutboxFacts.
Import Outbox.

(** *** The object store *)

Lemma with_syncQueue_same db entries :
  syncQueue db = Some entries -> with_syncQueue db entries = db.
Proof. destruct db as [v q]. simpl. intros ->. reflexivity. Qed.

Lemma filter_twice {A} (f : A -> bool) (l : list A) :
  List.filter f (List.filter f l) = List.filter f l.
Proof.
  induction l as [|x l IH]; simpl; [reflexivity|].
  destruct (f x) eqn:E; simpl; [rewrite E, IH|]; auto.
Qed.

Lemma store_delete_twice key entries :
  store_delete key (store_delete key entries) = store_delete key entries.
Proof. apply filter_twice. Qed.

Lemma store_delete_absent key entries :
  existsb (fun x => Qeq_bool (id x) key) entries = false ->
  store_delete key entries = entries.
Proof.
  induction entries as [|x l IH]; simpl; intros H; [reflexivity|].
  apply orb_false_iff in H as [Hx Hl].
  unfold store_delete in *. simpl. rewrite Hx. simpl. f_equal. apply IH, Hl.
Qed.

(** [store.delete] keeps the records in key order. *)
Lemma store_delete_ok key entries :
  store_ok entries -> store_ok (store_delete key entries).
Proof.
  induction 1 as [|a l Hs IH Hall]; [constructor|].
  unfold store_delete in *. cbn [List.filter].
  destruct (negb (Qeq_bool (id a) key)); [|exact IH].
  constructor; [exact IH|].
  rewrite List.Forall_forall in *. intros x Hx.
  apply filter_In in Hx as [Hx _]. apply Hall, Hx.
Qed.

(** *** The drain read *)

(** C4: on a database without the 'syncQueue' object store
    [getPendingOperations] resolves with the empty list. *)
Theorem getPendingOperations_without_store :
  forall db : IDBDatabase,
    syncQueue db = None -> getPendingOperations db = Resolved [].
Proof.
  intros db H. unfold getPendingOperations, contains_syncQueue.
  rewrite H. reflexivity.
Qed.

Lemma getPendingOperations_without_store_witness :
  getPendingOperations db_without_store = Resolved [].
Proof. apply (getPendingOperations_without_store db_without_store). reflexivity. Defined.

(** First run of the worker: the upgrade creates the object store and the
    drain read is empty. *)
Lemma pending_first_run : pending None = Resolved [].
Proof. reflexivity. Qed.

(** An enqueue that runs before the worker ever opened the database never
    settles and leaves a version-1 database without the object store, on
    which the drain read is empty. *)
Lemma pending_after_early_enqueue tick operation :
  fst (storeOperationForSync tick operation None) = NeverSettles /\
  pending (snd (storeOperationForSync tick operation None)) = Resolved [].
Proof. split; reflexivity. Qed.

Lemma getPendingOperations_with_store db entries :
  syncQueue db = Some entries -> getPendingOperations db = Resolved entries.
Proof.
  intros H. unfold getPendingOperations, contains_syncQueue, transaction_syncQueue.
  rewrite H. reflexivity.
Qed.

(** *** Completion *)

Lemma markOperationComplete_resolves db key :
  fst (markOperationComplete db key) = Resolved tt.
Proof.
  unfold markOperationComplete, contains_syncQueue, transaction_syncQueue.
  destruct (syncQueue db); simpl; [destruct key|]; reflexivity.
Qed.

Lemma markOperationComplete_number db entries q :
  syncQueue db = Some entries ->
  markOperationComplete db (KeyNumber q)
  = (Resolved tt, with_syncQueue db (store_delete q entries)).
Proof.
  intros H. unfold markOperationComplete, contains_syncQueue, transaction_syncQueue.
  rewrite H. reflexivity.
Qed.

(** C5: [markOperationComplete] always resolves; a second call with the
    same id resolves too and leaves the database as the first call left
    it; a call with an id that is not in the syncQueue leaves the database
    as it was. *)
Theorem markOperationComplete_idempotent :
  forall (db : IDBDatabase) (operationId : JsKey),
    let first := markOperationComplete db operationId in
    let second := markOperationComplete (snd first) operationId in
    fst first = Resolved tt /\
    fst second = Resolved tt /\
    snd second = snd first /\
    (has_key operationId db = false -> snd first = db).
Proof.
  intros db key first second. subst first second.
  split; [apply markOperationComplete_resolves|].
  split; [apply markOperationComplete_resolves|].
  destruct (syncQueue db) as [entries|] eqn:Hq.
  - destruct key as [q|].
    + rewrite (markOperationComplete_number db entries q Hq). cbn [fst snd].
      rewrite (markOperationComplete_number (with_syncQueue db (store_delete q entries))
                 (store_delete q entries) q eq_refl). cbn [fst snd].
      split.
      * unfold with_syncQueue. simpl. rewrite store_delete_twice. reflexivity.
      * unfold has_key. rewrite Hq. intros Habs.
        rewrite store_delete_absent by exact Habs.
        apply with_syncQueue_same, Hq.
    + unfold markOperationComplete, contains_syncQueue, transaction_syncQueue.
      rewrite Hq. simpl. rewrite Hq. simpl. split; reflexivity.
  - unfold markOperationComplete, contains_syncQueue.
    rewrite Hq. simpl. rewrite Hq. simpl. split; reflexivity.
Qed.

Lemma markOperationComplete_idempotent_witness :
  snd (markOperationComplete (with_syncQueue empty_db mixed_queue) (KeyNumber 7))
  = with_syncQueue empty_db mixed_queue.
Proof.
  apply (markOperationComplete_idempotent
           (with_syncQueue empty_db mixed_queue) (KeyNumber 7)).
  reflexivity.
Defined.

(** *** The drain loop *)

Lemma executeOperation_cases operation :
  executeOperation operation = Resolved tt \/
  executeOperation operation
  = Rejected (ErrorObj ("Unknown operation type: " ++ type operation)).
Proof.
  unfold executeOperation, syncCreateTask, syncUpdateTask, syncDeleteTask.
  repeat match goal with |- context [if ?b then _ else _] => destruct b end; auto.
Qed.

(** The loop never throws and never hangs; it executes every operation in
    order, whatever happened to the ones before. *)
Lemma drain_loop_eq operations : forall db,
  drain_loop db operations
  = (Resolved tt, drained db operations, flat_map calls_for operations).
Proof.
  induction operations as [|operation rest IH]; intros db; [reflexivity|].
  assert (Hd : drained db (operation :: rest)
               = drained (if succeeds operation
                          then snd (markOperationComplete db (KeyNumber (id operation)))
                          else db) rest) by reflexivity.
  rewrite Hd. cbn [drain_loop flat_map]. unfold calls_for, succeeds.
  destruct (executeOperation_cases operation) as [E | E]; rewrite E.
  - pose proof (markOperationComplete_resolves db (KeyNumber (id operation))) as Hm.
    destruct (markOperationComplete db (KeyNumber (id operation))) as [r db'].
    cbn [fst snd] in *. subst r. rewrite IH. reflexivity.
  - rewrite IH. reflexivity.
Qed.

Lemma executed_calls_for operations :
  executed (flat_map calls_for operations) = operations.
Proof.
  induction operations as [|operation rest IH]; [reflexivity|].
  cbn [flat_map]. unfold executed in *. rewrite flat_map_app, IH.
  unfold calls_for. destruct (succeeds operation); reflexivity.
Qed.

Lemma drained_with_store operations : forall db entries,
  syncQueue db = Some entries ->
  drained db operations
  = with_syncQueue db
      (List.filter
         (fun x => negb (existsb (fun operation =>
                                    succeeds operation && Qeq_bool (id x) (id operation))
                                 operations))
         entries).
Proof.
  induction operations as [|operation rest IH]; intros db entries Hq.
  - cbn [drained fold_left existsb negb].
    assert (Hall : List.filter (fun _ : SyncOperation => true) entries = entries)
      by (clear; induction entries; simpl; congruence).
    rewrite Hall. symmetry. apply with_syncQueue_same, Hq.
  - assert (Hd : drained db (operation :: rest)
                 = drained (if succeeds operation
                            then snd (markOperationComplete db (KeyNumber (id operation)))
                            else db) rest) by reflexivity.
    rewrite Hd. cbn [existsb].
    destruct (succeeds operation).
    + rewrite (markOperationComplete_number db entries _ Hq). cbn [snd].
      rewrite (IH (with_syncQueue db (store_delete (id operation) entries))
                  (store_delete (id operation) entries) eq_refl).
      unfold with_syncQueue. cbn [version syncQueue]. do 2 f_equal.
      unfold store_delete. clear.
      induction entries as [|x l IHl]; simpl; [reflexivity|].
      destruct (Qeq_bool (id x) (id operation)); simpl; rewrite IHl; reflexivity.
    + rewrite (IH db entries Hq). reflexivity.
Qed.

Lemma store_ok_unique entries : store_ok entries ->
  forall x y, In x entries -> In y entries -> (id x == id y)%Q -> x = y.
Proof.
  induction 1 as [|a l Hs IH Hall]; intros x y Hx Hy Heq; [destruct Hx|].
  rewrite List.Forall_forall in Hall.
  destruct Hx as [<- | Hx], Hy as [<- | Hy].
  - reflexivity.
  - apply Hall in Hy. unfold key_lt in Hy. lra.
  - apply Hall in Hx. unfold key_lt in Hx. lra.
  - apply IH; assumption.
Qed.

(** Draining the queue itself leaves exactly the operations that failed. *)
Lemma drained_queue db entries :
  syncQueue db = Some entries -> store_ok entries ->
  drained db entries
  = with_syncQueue db (List.filter (fun operation => negb (succeeds operation)) entries).
Proof.
  intros Hq Hok. rewrite (drained_with_store entries db entries Hq). f_equal.
  apply filter_ext_in. intros x Hx. f_equal.
  destruct (succeeds x) eqn:Ex.
  - apply existsb_exists. exists x. split; [assumption|].
    rewrite Ex. simpl. apply Qeq_bool_iff. reflexivity.
  - apply not_true_is_false. intros H. apply existsb_exists in H as (y & Hy & H).
    apply andb_true_iff in H as [Hs He]. apply Qeq_bool_iff in He.
    rewrite (store_ok_unique entries Hok x y Hx Hy He) in Ex. congruence.
Qed.

Lemma openDatabase_version_1 db :
  version db = 1%positive -> openDatabase (Some db) = (Resolved db, Some db).
Proof. intros H. unfold openDatabase. rewrite H. reflexivity. Qed.

Lemma syncPendingOperations_settles w :
  settled (syncPendingOperations w) = Resolved tt.
Proof.
  unfold syncPendingOperations.
  destruct (openDatabase (indexedDB w)) as [[db | e |] disk] eqn:Ho.
  - destruct (getPendingOperations db) as [operations | e |] eqn:Hg.
    + rewrite drain_loop_eq. reflexivity.
    + reflexivity.
    + unfold getPendingOperations in Hg.
      destruct (negb (contains_syncQueue db)); [discriminate|].
      destruct (transaction_syncQueue db); discriminate.
  - reflexivity.
  - unfold openDatabase in Ho. destruct (indexedDB w) as [d|]; [|discriminate].
    destruct (1 <? version d)%positive; discriminate.
Qed.

(** C3: [syncPendingOperations] never throws. When it drains the records
    of the syncQueue, every one of them is executed in order, also after
    an operation whose execution threw; [markOperationComplete] is called
    only after an execution that succeeded; and afterwards the syncQueue
    holds exactly the operations whose execution did not succeed: those
    that threw are kept, those that succeeded are removed. *)
Theorem syncPendingOperations_partial_progress :
  forall w : World,
    settled (syncPendingOperations w) = Resolved tt /\
    forall (db : IDBDatabase) (entries : list SyncOperation),
      indexedDB w = Some db -> version db = 1%positive ->
      syncQueue db = Some entries -> store_ok entries ->
      calls (syncPendingOperations w) = flat_map calls_for entries /\
      executed (calls (syncPendingOperations w)) = entries /\
      indexedDB (world (syncPendingOperations w))
      = Some (with_syncQueue db
                (List.filter (fun operation => negb (succeeds operation)) entries)) /\
      (forall operation e,
         In operation entries -> executeOperation operation = Rejected e ->
         calls_for operation = [ExecuteOperation operation (Rejected e)] /\
         In operation (List.filter (fun operation => negb (succeeds operation)) entries)).
Proof.
  intros w. split; [apply syncPendingOperations_settles|].
  intros db entries Hw Hv Hq Hok.
  unfold syncPendingOperations.
  rewrite Hw, (openDatabase_version_1 db Hv), (getPendingOperations_with_store db entries Hq).
  rewrite drain_loop_eq. cbn [calls world indexedDB].
  split; [reflexivity|]. split; [apply executed_calls_for|]. split.
  - rewrite (drained_queue db entries Hq Hok). reflexivity.
  - intros operation e Hin He. split.
    + unfold calls_for, succeeds. rewrite He. reflexivity.
    + apply filter_In. split; [assumption|].
      unfold succeeds. rewrite He. reflexivity.
Qed.

Lemma mixed_queue_ok : store_ok mixed_queue.
Proof. unfold store_ok, mixed_queue. repeat constructor. Qed.

Lemma syncPendingOperations_partial_progress_witness :
  executed (calls (syncPendingOperations (world_of (with_syncQueue empty_db mixed_queue))))
  = mixed_queue /\
  indexedDB (world (syncPendingOperations (world_of (with_syncQueue empty_db mixed_queue))))
  = Some (with_syncQueue empty_db
            [ {| id := 2; type := "RENAME_TASK"; data := "b"; timestamp := 2 |} ]).
Proof.
  destruct (syncPendingOperations_partial_progress
              (world_of (with_syncQueue empty_db mixed_queue))) as [_ H].
  destruct (H (with_syncQueue empty_db mixed_queue) mixed_queue
              eq_refl eq_refl eq_refl mixed_queue_ok) as (_ & Ha & Hq & _).
  split; [exact Ha | exact Hq].
Defined.

(** C9: after a drain pass (the database opened and the pending
    operations were read) every client of the worker has been posted
    [SYNC_COMPLETE] with the number of operations of the pass, each of
    which was attempted; with exactly one queued create operation the
    syncQueue is empty afterwards and the count is 1. *)
Theorem syncPendingOperations_reports_count :
  forall (w : World) (db : IDBDatabase) (disk : option IDBDatabase)
         (operations : list SyncOperation),
    openDatabase (indexedDB w) = (Resolved db, disk) ->
    getPendingOperations db = Resolved operations ->
    settled (syncPendingOperations w) = Resolved tt /\
    executed (calls (syncPendingOperations w)) = operations /\
    posted (world (syncPendingOperations w))
    = (posted w
       ++ List.map (fun client => (client, SYNC_COMPLETE (length operations))) (clients w))%list /\
    (forall operation,
       syncQueue db = Some [operation] -> type operation = "CREATE_TASK" ->
       indexedDB (world (syncPendingOperations w)) = Some (with_syncQueue db []) /\
       posted (world (syncPendingOperations w))
       = (posted w ++ List.map (fun client => (client, SYNC_COMPLETE 1)) (clients w))%list).
Proof.
  intros w db disk operations Ho Hg.
  split; [apply syncPendingOperations_settles|].
  unfold syncPendingOperations. rewrite Ho, Hg, drain_loop_eq.
  cbn [calls world posted indexedDB].
  split; [apply executed_calls_for|]. split; [reflexivity|].
  intros operation Hq Ht.
  rewrite (getPendingOperations_with_store db [operation] Hq) in Hg.
  injection Hg as <-. split; [|reflexivity].
  assert (Hs : succeeds operation = true).
  { unfold succeeds, executeOperation. rewrite Ht. reflexivity. }
  unfold drained. cbn [fold_left]. rewrite Hs.
  rewrite (markOperationComplete_number db [operation] _ Hq). cbn [snd].
  unfold store_delete. cbn [List.filter].
  assert (He : Qeq_bool (id operation) (id operation) = true)
    by (apply Qeq_bool_iff; reflexivity).
  rewrite He. reflexivity.
Qed.

Lemma syncPendingOperations_reports_count_witness :
  indexedDB (world (syncPendingOperations (world_of (with_syncQueue empty_db [milk_entry]))))
  = Some (with_syncQueue empty_db []) /\
  posted (world (syncPendingOperations (world_of (with_syncQueue empty_db [milk_entry]))))
  = [("tab-1", SYNC_COMPLETE 1); ("tab-2", SYNC_COMPLETE 1)].
Proof.
  destruct (syncPendingOperations_reports_count
              (world_of (with_syncQueue empty_db [milk_entry]))
              (with_syncQueue empty_db [milk_entry])
              (Some (with_syncQueue empty_db [milk_entry]))
              [milk_entry] eq_refl eq_refl) as (_ & _ & _ & H).
  exact (H milk_entry eq_refl eq_refl).
Defined.

(** *** Enqueueing *)

Lemma store_add_last record entries :
  Forall (fun x => key_lt x record) entries ->
  store_add record entries = Some (entries ++ [record])%list.
Proof.
  induction 1 as [|x l Hx Hl IH]; [reflexivity|].
  cbn [store_add]. unfold key_lt in Hx.
  apply Qgt_alt in Hx. rewrite Hx, IH. reflexivity.
Qed.

(** [store.add] keeps the records in key order. *)
Lemma store_add_ok record : forall entries entries',
  store_ok entries -> store_add record entries = Some entries' ->
  store_ok entries' /\
  (forall y, Forall (key_lt y) entries -> key_lt y record -> Forall (key_lt y) entries').
Proof.
  induction entries as [|x l IH]; intros entries' Hok Hadd.
  - injection Hadd as <-. split; [repeat constructor|]. intros y _ Hy. repeat constructor. exact Hy.
  - cbn [store_add] in Hadd. apply StronglySorted_inv in Hok as [Hl Hx].
    destruct (id record ?= id x)%Q eqn:Hc; [discriminate| |].
    + injection Hadd as <-. apply Qlt_alt in Hc. split.
      * constructor; [constructor; assumption|].
        constructor; [exact Hc|].
        eapply List.Forall_impl; [|exact Hx]. unfold key_lt in *. intros z Hz. simpl in Hz. lra.
      * intros y Hy Hyr. constructor; assumption.
    + destruct (store_add record l) as [l'|] eqn:Hadd'; [|discriminate].
      injection Hadd as <-. destruct (IH l' Hl eq_refl) as [Hok' Hall].
      apply Qgt_alt in Hc. split.
      * constructor; [exact Hok'|]. apply Hall; [exact Hx | exact Hc].
      * intros y Hy Hyr. apply Forall_cons_iff in Hy as [Hyx Hyl].
        constructor; [exact Hyx|]. apply Hall; assumption.
Qed.

(** *** Rounding of the key *)

Lemma Qfloor_unique (y : Q) (t : Z) :
  (inject_Z t <= y)%Q -> (y < inject_Z t + 1)%Q -> Qfloor y = t.
Proof.
  intros Hl Hu.
  pose proof (Qfloor_le y) as H1. pose proof (Qlt_floor y) as H2.
  assert (Ha : (inject_Z (Qfloor y) < inject_Z (t + 1))%Q)
    by (rewrite inject_Z_plus; change (inject_Z 1) with 1%Q; lra).
  assert (Hb : (inject_Z t < inject_Z (Qfloor y + 1))%Q) by lra.
  rewrite <- Zlt_Qlt in Ha, Hb. lia.
Qed.

Lemma round_half_even_between (q : Q) (a b : Z) :
  (inject_Z a <= q)%Q -> (q <= inject_Z b)%Q ->
  a <= round_half_even q <= b.
Proof.
  intros Ha Hb. unfold round_half_even.
  pose proof (Qfloor_le q) as H1. pose proof (Qlt_floor q) as H2.
  rewrite inject_Z_plus in H2. change (inject_Z 1) with 1%Q in H2.
  assert (Hfa : a <= Qfloor q).
  { assert (H : (inject_Z a < inject_Z (Qfloor q + 1))%Q)
      by (rewrite inject_Z_plus; change (inject_Z 1) with 1%Q; lra).
    rewrite <- Zlt_Qlt in H. lia. }
  assert (Hfb : Qfloor q <= b).
  { assert (H : (inject_Z (Qfloor q) <= inject_Z b)%Q) by lra.
    rewrite <- Zle_Qle in H. exact H. }
  assert (Hup : (inject_Z (Qfloor q) < q)%Q -> Qfloor q + 1 <= b).
  { intros H. assert (H' : (inject_Z (Qfloor q) < inject_Z b)%Q) by lra.
    rewrite <- Zlt_Qlt in H'. lia. }
  destruct (q - inject_Z (Qfloor q) ?= 1 # 2)%Q eqn:Hc.
  - apply Qeq_alt in Hc. destruct (Z.even (Qfloor q)); [lia|].
    assert (H : (inject_Z (Qfloor q) < q)%Q) by lra. specialize (Hup H). lia.
  - lia.
  - apply Qgt_alt in Hc.
    assert (H : (inject_Z (Qfloor q) < q)%Q) by lra. specialize (Hup H). lia.
Qed.

(** A clock reading plus a fraction below 1 rounds into the millisecond of
    the reading or onto the next one. *)
Lemma js_add_between (t : Z) (r : Q) :
  1 <= t < 2 ^ 53 -> (0 <= r)%Q -> (r < 1)%Q ->
  (inject_Z t <= js_add (inject_Z t) r)%Q /\
  (js_add (inject_Z t) r <= inject_Z t + 1)%Q.
Proof.
  intros Ht Hr0 Hr1. unfold js_add, to_double.
  set (x := (inject_Z t + r)%Q).
  assert (Hx1 : (inject_Z t <= x)%Q) by (unfold x; lra).
  assert (Hx2 : (x < inject_Z t + 1)%Q) by (unfold x; lra).
  assert (Ht1 : (1 <= inject_Z t)%Q).
  { change 1%Q with (inject_Z 1). rewrite <- Zle_Qle. lia. }
  assert (Hpos : (0 < x)%Q) by lra.
  destruct (Qnum x) as [|p|p] eqn:Hn.
  - exfalso. unfold Qlt in Hpos. rewrite Hn in Hpos. simpl in Hpos. lia.
  - unfold round_positive, binade.
    assert (Hle : Qle_bool 1 x = true) by (apply Qle_bool_iff; lra).
    rewrite Hle, (Qfloor_unique x t Hx1 Hx2).
    assert (He : Z.log2 t - 52 <= 0).
    { assert (Z.log2 t < 53) by (apply Z.log2_lt_pow2; lia). lia. }
    unfold scale_up, scale_down.
    destruct (Z.leb_spec (Z.log2 t - 52) 0) as [_ | Hgt]; [|lia].
    set (P := 2 ^ (- (Z.log2 t - 52))).
    assert (HP : 0 < P) by (apply Z.pow_pos_nonneg; lia).
    assert (HPq : (0 < inject_Z P)%Q).
    { change 0%Q with (inject_Z 0). rewrite <- Zlt_Qlt. exact HP. }
    destruct (round_half_even_between (x * inject_Z P) (t * P) ((t + 1) * P))
      as [Hm1 Hm2].
    { rewrite inject_Z_mult. apply Qmult_le_compat_r; lra. }
    { rewrite inject_Z_mult, inject_Z_plus. change (inject_Z 1) with 1%Q.
      apply Qmult_le_compat_r; lra. }
    split.
    + apply Qle_shift_div_l; [exact HPq|].
      rewrite <- inject_Z_mult, <- Zle_Qle. exact Hm1.
    + apply Qle_shift_div_r; [exact HPq|].
      assert (H : (inject_Z (round_half_even (x * inject_Z P))
                   <= inject_Z ((t + 1) * P))%Q)
        by (rewrite <- Zle_Qle; exact Hm2).
      rewrite inject_Z_mult, inject_Z_plus in H. change (inject_Z 1) with 1%Q in H.
      exact H.
  - exfalso. unfold Qlt in Hpos. rewrite Hn in Hpos. simpl in Hpos. lia.
Qed.

Lemma stored_key_between call :
  1 <= now_id (fst call) < 2 ^ 53 ->
  (0 <= random (fst call) /\ random (fst call) < 1)%Q ->
  (inject_Z (now_id (fst call)) <= id (stored call))%Q /\
  (id (stored call) <= inject_Z (now_id (fst call)) + 1)%Q.
Proof. intros Ht [H0 H1]. unfold stored. cbn [id]. apply js_add_between; assumption. Qed.

Lemma two_ms_later_key_lt a b :
  1 <= now_id (fst a) < 2 ^ 53 -> 1 <= now_id (fst b) < 2 ^ 53 ->
  (0 <= random (fst a) /\ random (fst a) < 1)%Q ->
  (0 <= random (fst b) /\ random (fst b) < 1)%Q ->
  two_ms_later a b -> key_lt (stored a) (stored b).
Proof.
  intros Hta Htb Hra Hrb H2. unfold key_lt, two_ms_later in *.
  destruct (stored_key_between a Hta Hra) as [_ Ha].
  destruct (stored_key_between b Htb Hrb) as [Hb _].
  assert (H : (inject_Z (now_id (fst a)) + 2 <= inject_Z (now_id (fst b)))%Q).
  { change 2%Q with (inject_Z 2). rewrite <- inject_Z_plus, <- Zle_Qle. lia. }
  lra.
Qed.

Lemma stored_ok calls :
  random_ok calls -> clock_ok calls -> two_ms_apart calls ->
  store_ok (List.map stored calls).
Proof.
  intros Hr Hk Hc. induction Hc as [|a l Hs IH Hall]; [constructor|].
  apply Forall_cons_iff in Hr as [Ha Hl]. apply Forall_cons_iff in Hk as [Hka Hkl].
  cbn [List.map]. constructor; [apply IH; assumption|].
  apply List.Forall_map. rewrite List.Forall_forall in *.
  intros b Hb.
  apply two_ms_later_key_lt;
    [exact Hka | apply (Hkl b Hb) | exact Ha | apply (Hl b Hb) | apply Hall, Hb].
Qed.

Lemma storeOperationForSync_open tick operation db entries :
  version db = 1%positive -> syncQueue db = Some entries ->
  storeOperationForSync tick operation (Some db)
  = match store_add (stored (tick, operation)) entries with
    | Some entries' => (Resolved tt, Some (with_syncQueue db entries'))
    | None => (Rejected (DOMException "ConstraintError"), Some db)
    end.
Proof.
  intros Hv Hq. unfold storeOperationForSync, transaction_syncQueue.
  rewrite Hv. cbn [Pos.ltb Pos.compare Pos.compare_cont]. rewrite Hq. reflexivity.
Qed.

Lemma store_add_None_iff record : forall entries,
  store_ok entries ->
  store_add record entries = None <->
  existsb (fun x => Qeq_bool (id x) (id record)) entries = true.
Proof.
  induction 1 as [|y l Hs IH Hall]; cbn [store_add existsb]; [split; discriminate|].
  destruct (id record ?= id y)%Q eqn:Hc.
  - apply Qeq_alt in Hc. split; [|reflexivity]. intros _.
    apply orb_true_iff. left. apply Qeq_bool_iff. symmetry. exact Hc.
  - apply Qlt_alt in Hc. split; [discriminate|]. intros H. exfalso.
    apply orb_true_iff in H as [H | H].
    + apply Qeq_bool_iff in H. lra.
    + apply existsb_exists in H as (x & Hx & He). apply Qeq_bool_iff in He.
      rewrite List.Forall_forall in Hall. apply Hall in Hx. unfold key_lt in Hx. lra.
  - apply Qgt_alt in Hc.
    assert (Hy : Qeq_bool (id y) (id record) = false).
    { apply not_true_is_false. intros H. apply Qeq_bool_iff in H. lra. }
    rewrite Hy. cbn [orb]. rewrite <- IH.
    destruct (store_add record l); cbn [option_map]; split; congruence.
Qed.

Lemma stored_timestamps_increase calls :
  clock_advances calls ->
  StronglySorted Z.lt (List.map timestamp (List.map stored calls)).
Proof.
  induction 1 as [|a l Hs IH Hall]; [constructor|].
  cbn [List.map]. constructor; [exact IH|].
  apply List.Forall_map, List.Forall_map. eapply List.Forall_impl; [|exact Hall].
  intros b [_ Hts]. exact Hts.
Qed.

Lemma enqueue_all_appends calls : forall db entries,
  version db = 1%positive -> syncQueue db = Some entries ->
  Forall (fun x => Forall (key_lt x) (List.map stored calls)) entries ->
  store_ok (List.map stored calls) ->
  enqueue_all calls (Some db)
  = (List.map (fun _ => Resolved tt) calls,
     Some (with_syncQueue db (entries ++ List.map stored calls))).
Proof.
  induction calls as [|[tick operation] rest IH]; intros db entries Hv Hq Hlt Hok.
  - cbn [enqueue_all List.map]. rewrite app_nil_r, (with_syncQueue_same db entries Hq).
    reflexivity.
  - cbn [List.map] in Hlt, Hok. apply StronglySorted_inv in Hok as [Hok Hfirst].
    cbn [enqueue_all]. unfold storeOperationForSync, transaction_syncQueue.
    rewrite Hv. cbn [Pos.ltb Pos.compare Pos.compare_cont]. rewrite Hq.
    change {| id := js_add (inject_Z (now_id tick)) (random tick);
              type := op_type operation; data := op_data operation;
              timestamp := now_ts tick |} with (stored (tick, operation)).
    rewrite store_add_last.
    2:{ eapply List.Forall_impl; [|exact Hlt]. intros x Hx.
        apply Forall_cons_iff in Hx as [Hx _]. exact Hx. }
    rewrite (IH (with_syncQueue db (entries ++ [stored (tick, operation)]))
                (entries ++ [stored (tick, operation)])%list); try reflexivity.
    + cbn [List.map]. unfold with_syncQueue. cbn [version].
      rewrite <- app_assoc. reflexivity.
    + exact Hv.
    + apply Forall_app. split.
      * eapply List.Forall_impl; [|exact Hlt]. intros x Hx.
        apply Forall_cons_iff in Hx as [_ Hx]. exact Hx.
      * constructor; [exact Hfirst | constructor].
    + exact Hok.
Qed.

(** The claim of C8 fails for two calls within the same millisecond: both
    entries are stored with the same timestamp, and the drain returns the
    second before the first because its key is the smaller one. *)
Lemma same_ms_enqueue_reverses_order :
  fst (enqueue_all same_ms_calls (Some empty_db)) = [Resolved tt; Resolved tt] /\
  pending (snd (enqueue_all same_ms_calls (Some empty_db)))
  = Resolved (List.rev (List.map stored same_ms_calls)) /\
  List.map timestamp (List.map stored same_ms_calls) = [1000; 1000].
Proof. repeat split; vm_compute; reflexivity. Qed.

Lemma enqueue_all_cons tick operation rest disk :
  enqueue_all ((tick, operation) :: rest) disk
  = (fst (storeOperationForSync tick operation disk)
       :: fst (enqueue_all rest (snd (storeOperationForSync tick operation disk))),
     snd (enqueue_all rest (snd (storeOperationForSync tick operation disk)))).
Proof.
  cbn [enqueue_all]. destruct (storeOperationForSync tick operation disk) as [r disk'].
  cbn [fst snd]. destruct (enqueue_all rest disk'). reflexivity.
Qed.

Lemma kept_Forall (P : Tick * Operation -> Prop) calls : forall results,
  Forall P calls -> Forall P (kept calls results).
Proof.
  induction calls as [|c rest IH]; intros results H; [constructor|].
  apply Forall_cons_iff in H as [Hc Hrest].
  destruct results as [|[u | e |] rs]; cbn [kept]; try constructor; auto.
Qed.

Lemma kept_sorted (R : Tick * Operation -> Tick * Operation -> Prop) calls :
  forall results, StronglySorted R calls -> StronglySorted R (kept calls results).
Proof.
  induction calls as [|c rest IH]; intros results H; [constructor|].
  apply StronglySorted_inv in H as [Hrest Hc].
  destruct results as [|[u | e |] rs]; cbn [kept]; try constructor; auto.
  apply kept_Forall, Hc.
Qed.

Lemma kept_all calls : kept calls (List.map (fun _ => Resolved tt) calls) = calls.
Proof. induction calls as [|c rest IH]; cbn [kept List.map]; congruence. Qed.

(** A key at or above every stored key goes to the end of the store or is
    refused. *)
Lemma store_add_at_or_above record entries entries' :
  store_ok entries ->
  Forall (fun x => (id x <= id record)%Q) entries ->
  store_add record entries = Some entries' ->
  entries' = (entries ++ [record])%list.
Proof.
  intros Hok Hle Ha.
  assert (Hlt : Forall (fun x => key_lt x record) entries).
  { rewrite List.Forall_forall in *. intros x Hx. unfold key_lt.
    destruct (Qlt_le_dec (id x) (id record)) as [Hl | Hg]; [exact Hl|].
    exfalso. pose proof (Hle x Hx) as Hxle.
    assert (Hex : existsb (fun y => Qeq_bool (id y) (id record)) entries = true).
    { apply existsb_exists. exists x. split; [exact Hx|]. apply Qeq_bool_iff. lra. }
    apply (store_add_None_iff record entries Hok) in Hex. congruence. }
  rewrite (store_add_last record entries Hlt) in Ha. congruence.
Qed.

(** Enqueueing at advancing clock readings, from any open store whose keys
    lie at or below the first reading. *)
Lemma enqueue_all_keeps calls : forall db entries bound,
  version db = 1%positive -> syncQueue db = Some entries -> store_ok entries ->
  Forall (fun x => (id x <= bound)%Q) entries ->
  Forall (fun call => (bound <= inject_Z (now_id (fst call)))%Q) calls ->
  random_ok calls -> clock_ok calls -> clock_advances calls ->
  Forall stored_or_refused (fst (enqueue_all calls (Some db))) /\
  snd (enqueue_all calls (Some db))
  = Some (with_syncQueue db
            (entries ++ List.map stored
                          (kept calls (fst (enqueue_all calls (Some db)))))) /\
  store_ok (entries ++ List.map stored
                         (kept calls (fst (enqueue_all calls (Some db))))).
Proof.
  induction calls as [|[tick operation] rest IH];
    intros db entries bound Hv Hq Hok Hb Hc Hr Hk Ha.
  - cbn. rewrite app_nil_r, (with_syncQueue_same db entries Hq).
    split; [constructor|]. split; [reflexivity | exact Hok].
  - apply Forall_cons_iff in Hc as [Hc1 Hc]. apply Forall_cons_iff in Hr as [Hr1 Hr].
    apply Forall_cons_iff in Hk as [Hk1 Hk]. apply StronglySorted_inv in Ha as [Ha Ha1].
    destruct (stored_key_between (tick, operation) Hk1 Hr1) as [Hlo Hhi].
    cbn [fst] in Hlo, Hhi, Hc1.
    assert (Hnext : Forall (fun call => (inject_Z (now_id tick) + 1
                                         <= inject_Z (now_id (fst call)))%Q) rest).
    { eapply List.Forall_impl; [|exact Ha1]. intros c [Hid _]. cbn [fst] in Hid.
      change 1%Q with (inject_Z 1). rewrite <- inject_Z_plus, <- Zle_Qle. lia. }
    rewrite enqueue_all_cons.
    rewrite (storeOperationForSync_open tick operation db entries Hv Hq).
    destruct (store_add (stored (tick, operation)) entries) as [entries'|] eqn:Hadd;
      cbn [fst snd kept List.map].
    + assert (He : entries' = (entries ++ [stored (tick, operation)])%list).
      { apply (store_add_at_or_above _ _ _ Hok); [|exact Hadd].
        eapply List.Forall_impl; [|exact Hb]. intros x Hx. cbn beta in Hx. lra. }
      subst entries'.
      destruct (IH (with_syncQueue db (entries ++ [stored (tick, operation)]))
                   (entries ++ [stored (tick, operation)])%list
                   (inject_Z (now_id tick) + 1)%Q Hv eq_refl)
        as (H1 & H2 & H3); try assumption.
      { eapply store_add_ok; [exact Hok | exact Hadd]. }
      { apply Forall_app. split.
        - eapply List.Forall_impl; [|exact Hb]. intros x Hx. cbn beta in Hx. lra.
        - constructor; [exact Hhi | constructor]. }
      split; [constructor; [left; reflexivity | exact H1]|].
      rewrite <- !app_assoc in H2, H3. cbn [app] in H2, H3.
      split; [|exact H3]. rewrite H2. reflexivity.
    + destruct (IH db entries bound Hv Hq Hok Hb) as (H1 & H2 & H3); try assumption.
      split; [constructor; [right; reflexivity | exact H1]|].
      split; [exact H2 | exact H3].
Qed.

(** With one millisecond between two calls the sums can still round to the
    same double: the second call is then refused and only the first record
    is stored. *)
Lemma colliding_calls_second_is_refused :
  clock_advances colliding_calls /\
  fst (enqueue_all colliding_calls (Some empty_db))
  = [Resolved tt; Rejected (DOMException "ConstraintError")] /\
  pending (snd (enqueue_all colliding_calls (Some empty_db)))
  = Resolved [stored ({| now_id := 1730000000000; random := 1048575 # 1048576;
                         now_ts := 1730000000000 |}, create_milk)].
Proof.
  split; [unfold clock_advances, colliding_calls; repeat constructor|].
  split; vm_compute; reflexivity.
Qed.

(** C8 (amended): every entry is stamped with the clock reading of its
    call and keyed by the double [Date.now() + Math.random()]. For a
    sequence of enqueue calls on an empty syncQueue in which every call
    reads a later clock value than the calls before it, every call either
    resolves or is refused with ConstraintError (its key rounded onto a
    stored key); the entries of the calls that resolved have strictly
    increasing timestamps and the drain returns exactly them, in enqueue
    order (which is then the order of their keys). When the readings are
    at least two milliseconds apart, every call resolves. *)
Theorem enqueue_order_when_clock_advances :
  forall (calls : list (Tick * Operation)) (db : IDBDatabase),
    version db = 1%positive -> syncQueue db = Some [] ->
    random_ok calls -> clock_ok calls -> clock_advances calls ->
    let results := fst (enqueue_all calls (Some db)) in
    Forall stored_or_refused results /\
    pending (snd (enqueue_all calls (Some db)))
    = Resolved (List.map stored (kept calls results)) /\
    List.map timestamp (List.map stored calls)
    = List.map (fun call => now_ts (fst call)) calls /\
    StronglySorted Z.lt (List.map timestamp (List.map stored (kept calls results))) /\
    store_ok (List.map stored (kept calls results)) /\
    (two_ms_apart calls ->
     results = List.map (fun _ => Resolved tt) calls /\ kept calls results = calls).
Proof.
  intros calls db Hv Hq Hr Hk Hc results. subst results.
  assert (Hb : Forall (fun call => (0 <= inject_Z (now_id (fst call)))%Q) calls).
  { eapply List.Forall_impl; [|exact Hk]. intros c [Hc1 _]. cbn beta.
    change 0%Q with (inject_Z 0). rewrite <- Zle_Qle. lia. }
  destruct (enqueue_all_keeps calls db [] 0%Q Hv Hq (SSorted_nil _)
              (List.Forall_nil _) Hb Hr Hk Hc) as (H1 & H2 & H3).
  cbn [app] in H2, H3.
  split; [exact H1|]. split.
  { rewrite H2. unfold pending. rewrite openDatabase_version_1 by exact Hv. cbn [fst].
    apply getPendingOperations_with_store. reflexivity. }
  split; [rewrite List.map_map; reflexivity|].
  split; [apply stored_timestamps_increase, kept_sorted, Hc|].
  split; [exact H3|].
  intros H2ms. pose proof (stored_ok calls Hr Hk H2ms) as Hok.
  rewrite (enqueue_all_appends calls db [] Hv Hq (List.Forall_nil _) Hok).
  cbn [fst]. split; [reflexivity | apply kept_all].
Qed.

Lemma enqueue_order_when_clock_advances_witness :
  (pending (snd (enqueue_all spaced_calls (Some empty_db)))
   = Resolved (List.map stored
                 (kept spaced_calls (fst (enqueue_all spaced_calls (Some empty_db))))) /\
   StronglySorted Z.lt
     (List.map timestamp
        (List.map stored
           (kept spaced_calls (fst (enqueue_all spaced_calls (Some empty_db))))))) /\
  fst (enqueue_all
         [ ({| now_id := 1730000000000; random := 1048575 # 1048576;
               now_ts := 1730000000000 |}, create_milk);
           ({| now_id := 1730000000002; random := 1 # 1048576;
               now_ts := 1730000000002 |}, update_milk) ]
         (Some empty_db))
  = [Resolved tt; Resolved tt].
Proof.
  split.
  - destruct (enqueue_order_when_clock_advances spaced_calls empty_db eq_refl eq_refl)
      as (_ & H2 & _ & H3 & _).
    + unfold random_ok, spaced_calls. repeat constructor; discriminate.
    + unfold clock_ok, spaced_calls. repeat constructor; cbn; lia.
    + unfold clock_advances, spaced_calls. repeat constructor.
    + split; [exact H2 | exact H3].
  - destruct (enqueue_order_when_clock_advances
                [ ({| now_id := 1730000000000; random := 1048575 # 1048576;
                      now_ts := 1730000000000 |}, create_milk);
                  ({| now_id := 1730000000002; random := 1 # 1048576;
                      now_ts := 1730000000002 |}, update_milk) ]
                empty_db eq_refl eq_refl)
      as (_ & _ & _ & _ & _ & H).
    + unfold random_ok. repeat constructor; discriminate.
    + unfold clock_ok. repeat constructor; cbn; lia.
    + unfold clock_advances. repeat constructor.
    + destruct H as [Hr _].
      * unfold two_ms_apart. repeat constructor. unfold two_ms_later. cbn. lia.
      * exact Hr.
Defined.

End OutboxFacts.

(** * Further properties of the modelled code *)

Module NotificationMore.
Import NotificationClick.

(** X4: for an event as the browser dispatches it, any action other than
    'complete' and 'view' (the empty action of a click on the notification
    body, for one) closes the notification and opens the root window; the
    payload is not read and nothing is thrown. *)
Theorem notificationclick_other_action_opens_root :
  forall (action : string) (payload : JsValue),
    action <> "complete" -> action <> "view" ->
    notificationclick (NotificationEvent action payload)
    = ([NotificationClose; WaitUntilOpenWindow "/"], Normal).
Proof.
  intros action payload Hc Hv.
  unfold notificationclick, NotificationEvent. cbn.
  repeat match goal with
         | |- context [match ?s with EmptyString => _ | String _ _ => _ end] =>
             is_var s; destruct s
         | |- context [match ?a with Ascii.Ascii _ _ _ _ _ _ _ _ => _ end] =>
             is_var a; destruct a
         | |- context [if ?b then _ else _] => is_var b; destruct b
         end;
    try reflexivity; congruence.
Qed.

Lemma notificationclick_other_action_opens_root_witness :
  notificationclick (NotificationEvent "" (payload_of "t1"))
  = ([NotificationClose; WaitUntilOpenWindow "/"], Normal).
Proof.
  apply (notificationclick_other_action_opens_root "" (payload_of "t1")); discriminate.
Defined.

End NotificationMore.

Module CacheMore.
Import ServiceWorkerCache CacheOutcome.

Lemma cacheFirstStrategy_cache_after net (c : Cache) request :
  cache_after c (fst (cacheFirstStrategy net c request)) = refreshed net c request.
Proof.
  unfold cacheFirstStrategy, refreshed, put_if_ok.
  destruct (c !! href (url request)) as [cached|]; destruct (net request) as [r | e |];
    try reflexivity; destruct (ok r); reflexivity.
Qed.

Lemma networkFirstStrategy_cache_after net (c : Cache) request :
  cache_after c (fst (networkFirstStrategy net c request)) = refreshed net c request.
Proof.
  unfold networkFirstStrategy, refreshed, put_if_ok.
  destruct (net request) as [r | e |].
  - destruct (ok r); reflexivity.
  - destruct (c !! href (url request)); reflexivity.
  - reflexivity.
Qed.

Lemma staleWhileRevalidateStrategy_cache_after net (c : Cache) request :
  cache_after c (fst (staleWhileRevalidateStrategy net c request)) = refreshed net c request.
Proof.
  unfold staleWhileRevalidateStrategy, refreshed, put_if_ok.
  destruct (c !! href (url request)) as [cached|]; destruct (net request) as [r | e |];
    try reflexivity; destruct (ok r); reflexivity.
Qed.

Lemma cache_after_event_cases loc net (c : Cache) request :
  cache_after_event loc net c request = c \/
  cache_after_event loc net c request = refreshed net c request.
Proof.
  unfold cache_after_event, fetch_listener.
  destruct (negb (method request =? "GET")%string
            || negb (origin (url request) =? loc)%string); [left; reflexivity|].
  right.
  destruct (includes "/api/" (pathname (url request))).
  - pose proof (networkFirstStrategy_cache_after net c request) as H.
    destruct (networkFirstStrategy net c request). exact H.
  - destruct (includes "/static/" (pathname (url request))).
    + pose proof (cacheFirstStrategy_cache_after net c request) as H.
      destruct (cacheFirstStrategy net c request). exact H.
    + pose proof (staleWhileRevalidateStrategy_cache_after net c request) as H.
      destruct (staleWhileRevalidateStrategy net c request). exact H.
Qed.

Lemma refreshed_other_key net (c : Cache) request key :
  key <> href (url request) -> refreshed net c request !! key = c !! key.
Proof.
  intros Hk. unfold refreshed, cache_put.
  destruct (net request) as [r | |]; try reflexivity.
  destruct (ok r); [|reflexivity].
  destruct (status r =? 206)%Z; [reflexivity|].
  apply lookup_insert_ne. congruence.
Qed.

(** X5: whatever strategy serves a fetch event, the worker touches at most
    the cache entry of the requested URL: every other entry is afterwards
    what it was before. *)
Theorem fetch_event_touches_only_its_entry :
  forall (location_origin : string) (net : Network) (c : Cache) (request : Request)
         (key : string),
    key <> href (url request) ->
    cache_after_event location_origin net c request !! key = c !! key.
Proof.
  intros loc net c request key Hk.
  destruct (cache_after_event_cases loc net c request) as [-> | ->];
    [reflexivity | apply refreshed_other_key, Hk].
Qed.

Lemma fetch_event_touches_only_its_entry_witness :
  cache_after_event "https://app.example" net_up cache_old request_static
    !! href (url request_api) = cache_old !! href (url request_api).
Proof.
  apply (fetch_event_touches_only_its_entry "https://app.example" net_up cache_old
           request_static (href (url request_api))).
  discriminate.
Defined.

(** X6: the worker only ever caches ok responses: if every cached response
    is ok before a fetch event, the same holds after it, for every request
    and every answer of the network. *)
Theorem fetch_event_keeps_cache_ok :
  forall (location_origin : string) (net : Network) (c : Cache) (request : Request),
    all_ok c -> all_ok (cache_after_event location_origin net c request).
Proof.
  intros loc net c request Hc.
  destruct (cache_after_event_cases loc net c request) as [-> | ->]; [exact Hc|].
  unfold refreshed, cache_put.
  destruct (net request) as [r | |]; try exact Hc.
  destruct (ok r) eqn:Hok; [|exact Hc].
  destruct (status r =? 206)%Z; [exact Hc|].
  intros key r' Hl.
  destruct (decide (href (url request) = key)) as [<- | Hne].
  - rewrite lookup_insert_eq in Hl. congruence.
  - rewrite lookup_insert_ne in Hl by exact Hne. exact (Hc key r' Hl).
Qed.

Lemma cache_old_all_ok : all_ok cache_old.
Proof.
  intros key r H. unfold cache_old in H.
  apply lookup_singleton_Some in H as [_ <-]. reflexivity.
Qed.

Lemma fetch_event_keeps_cache_ok_witness :
  all_ok (cache_after_event "https://app.example" net_404 cache_old request_api).
Proof.
  apply (fetch_event_keeps_cache_ok "https://app.example" net_404 cache_old request_api).
  exact cache_old_all_ok.
Defined.


(** X8: [staleWhileRevalidateStrategy] has no fallback: its promise is
    rejected exactly when nothing is cached for the request and the fetch
    rejects, and then with the error of the fetch. *)
Theorem staleWhileRevalidate_rejects_iff_miss_and_network_fails :
  forall (net : Network) (c : Cache) (request : Request) (e : JsError),
    snd (staleWhileRevalidateStrategy net c request) = Rejected e <->
    c !! href (url request) = None /\ net request = Rejected e.
Proof.
  intros net c request e. unfold staleWhileRevalidateStrategy.
  destruct (c !! href (url request)) as [cached|].
  - split; [discriminate | intros [H _]; discriminate].
  - destruct (net request) as [r | e' |]; cbn [snd]; split;
      try discriminate; try (intros [_ H]; discriminate).
    + intros H. injection H as ->. split; reflexivity.
    + intros [_ H]. exact H.
Qed.

Lemma staleWhileRevalidate_rejects_iff_miss_and_network_fails_witness :
  snd (staleWhileRevalidateStrategy net_down ∅ request_api)
  = Rejected (TypeError "Failed to fetch").
Proof.
  apply (staleWhileRevalidate_rejects_iff_miss_and_network_fails
           net_down ∅ request_api (TypeError "Failed to fetch")).
  split; [apply lookup_empty | reflexivity].
Defined.

Lemma guard_passes loc request :
  method request = "GET" -> origin (url request) = loc ->
  negb (method request =? "GET")%string || negb (origin (url request) =? loc)%string = false.
Proof. intros -> ->. rewrite !String.eqb_refl. reflexivity. Qed.

(** [respondWith] is called exactly for the GET requests of the worker's
    own origin. *)
Theorem fetch_listener_responds_iff_get_same_origin :
  forall (location_origin : string) (net : Network) (c : Cache) (request : Request),
    is_Some (fetch_listener location_origin net c request) <->
    method request = "GET" /\ origin (url request) = location_origin.
Proof.
  intros loc net c request. unfold fetch_listener. split.
  - destruct (String.eqb_spec (method request) "GET") as [Hm | Hm]; cbn [negb orb].
    + destruct (String.eqb_spec (origin (url request)) loc) as [Ho | Ho]; cbn [negb].
      * intros _. split; assumption.
      * intros [x Hx]. discriminate.
    + intros [x Hx]. discriminate.
  - intros [Hm Ho]. rewrite (guard_passes loc request Hm Ho).
    destruct (includes "/api/" (pathname (url request))); [eexists; reflexivity|].
    destruct (includes "/static/" (pathname (url request))); eexists; reflexivity.
Qed.

Lemma fetch_listener_responds_iff_get_same_origin_witness :
  is_Some (fetch_listener "https://app.example" net_down ∅ request_static).
Proof.
  apply (fetch_listener_responds_iff_get_same_origin
           "https://app.example" net_down ∅ request_static).
  split; reflexivity.
Defined.



End CacheMore.

Module OutboxMore.
Import Outbox OutboxTriggers OutboxFacts.

(** *** Opening the database *)

(** X11: [openDatabase] never changes a database that exists, opening twice
    gives what opening once gave, and the database it resolves with is at
    version 1 and is the one on disk afterwards. *)
Theorem openDatabase_conservative :
  forall disk : option IDBDatabase,
    openDatabase (snd (openDatabase disk)) = openDatabase disk /\
    (forall db, disk = Some db -> snd (openDatabase disk) = disk) /\
    (forall db, fst (openDatabase disk) = Resolved db ->
       snd (openDatabase disk) = Some db /\ version db = 1%positive).
Proof.
  intros [db|]; unfold openDatabase.
  - destruct (1 <? version db)%positive eqn:Hv; cbn [fst snd]; rewrite ?Hv.
    + split; [reflexivity|]. split; [reflexivity|]. intros db' H. discriminate.
    + split; [reflexivity|]. split; [reflexivity|].
      intros db' H. injection H as <-. split; [reflexivity|].
      apply Pos.ltb_ge in Hv. lia.
  - cbn. split; [reflexivity|]. split; [intros db H; discriminate|].
    intros db H. injection H as <-. split; reflexivity.
Qed.

Lemma openDatabase_conservative_witness :
  snd (openDatabase (Some db_without_store)) = Some db_without_store.
Proof.
  destruct (openDatabase_conservative (Some db_without_store)) as (_ & H & _).
  exact (H db_without_store eq_refl).
Defined.

(** *** The key order of the object store *)

Lemma markOperationComplete_db_ok db key :
  db_ok db -> db_ok (snd (markOperationComplete db key)).
Proof.
  intros Hok. unfold markOperationComplete, contains_syncQueue, transaction_syncQueue.
  destruct (syncQueue db) as [entries|] eqn:Hq; cbn [negb]; [|exact Hok].
  destruct key as [q|]; cbn [snd]; [|exact Hok].
  intros entries' H. cbn in H. injection H as <-.
  apply store_delete_ok, Hok, Hq.
Qed.

Lemma drained_db_ok operations : forall db, db_ok db -> db_ok (drained db operations).
Proof.
  induction operations as [|operation rest IH]; intros db Hok; [exact Hok|].
  unfold drained in *. cbn [fold_left]. apply IH.
  destruct (succeeds operation); [apply markOperationComplete_db_ok, Hok | exact Hok].
Qed.

(** X12: enqueueing keeps the object store in strictly ascending key order
    (so keys stay unique), whatever the clock and [Math.random()] give and
    whether the call resolves, rejects or never settles. *)
Theorem storeOperationForSync_keeps_key_order :
  forall (tick : Tick) (operation : Operation) (disk : option IDBDatabase),
    disk_ok disk -> disk_ok (snd (storeOperationForSync tick operation disk)).
Proof.
  intros tick operation disk Hok. unfold storeOperationForSync.
  destruct disk as [db|].
  - destruct (1 <? version db)%positive; [exact Hok|].
    unfold transaction_syncQueue.
    destruct (syncQueue db) as [entries|] eqn:Hq; [|exact Hok].
    match goal with |- context [store_add ?e entries] =>
      destruct (store_add e entries) as [entries'|] eqn:Ha end; [|exact Hok].
    cbn [snd]. intros db' Hdb'. injection Hdb' as <-.
    intros es Hes. cbn in Hes. injection Hes as <-.
    eapply store_add_ok; [|exact Ha]. exact (Hok db eq_refl entries Hq).
  - cbn. intros db' Hdb'. injection Hdb' as <-. intros es Hes. discriminate.
Qed.

Lemma storeOperationForSync_keeps_key_order_witness :
  disk_ok (snd (storeOperationForSync milk_tick create_milk
                  (Some (with_syncQueue empty_db mixed_queue)))).
Proof.
  apply (storeOperationForSync_keeps_key_order milk_tick create_milk
           (Some (with_syncQueue empty_db mixed_queue))).
  intros db Hdb. injection Hdb as <-. intros entries He. cbn in He. injection He as <-.
  exact mixed_queue_ok.
Defined.

(** X13: a drain pass keeps the object store in strictly ascending key
    order, whichever operations succeed. *)
Theorem syncPendingOperations_keeps_key_order :
  forall w : World,
    disk_ok (indexedDB w) -> disk_ok (indexedDB (world (syncPendingOperations w))).
Proof.
  intros w Hok. unfold syncPendingOperations.
  destruct (openDatabase (indexedDB w)) as [[db | e |] disk] eqn:Ho.
  - assert (Hdb : db_ok db).
    { unfold openDatabase in Ho. destruct (indexedDB w) as [d|].
      - destruct (1 <? version d)%positive; [discriminate|].
        injection Ho as <- _. exact (Hok d eq_refl).
      - injection Ho as <- _. intros entries H. cbn in H. injection H as <-. constructor. }
    destruct (getPendingOperations db) as [operations | e |] eqn:Hg.
    + rewrite drain_loop_eq. cbn [world indexedDB].
      intros db' H. injection H as <-. apply drained_db_ok, Hdb.
    + unfold getPendingOperations in Hg.
      destruct (negb (contains_syncQueue db)); [discriminate|].
      destruct (transaction_syncQueue db); discriminate.
    + unfold getPendingOperations in Hg.
      destruct (negb (contains_syncQueue db)); [discriminate|].
      destruct (transaction_syncQueue db); discriminate.
  - cbn [world indexedDB]. unfold openDatabase in Ho.
    destruct (indexedDB w) as [d|]; [|discriminate].
    destruct (1 <? version d)%positive; [|discriminate].
    injection Ho as _ <-. exact Hok.
  - unfold openDatabase in Ho. destruct (indexedDB w) as [d|]; [|discriminate].
    destruct (1 <? version d)%positive; discriminate.
Qed.

Lemma syncPendingOperations_keeps_key_order_witness :
  disk_ok (indexedDB (world (syncPendingOperations
                               (world_of (with_syncQueue empty_db mixed_queue))))).
Proof.
  apply (syncPendingOperations_keeps_key_order
           (world_of (with_syncQueue empty_db mixed_queue))).
  intros db Hdb. injection Hdb as <-. intros entries He. cbn in He. injection He as <-.
  exact mixed_queue_ok.
Defined.

(** *** Enqueueing *)

Lemma store_add_In record : forall entries entries',
  store_add record entries = Some entries' ->
  length entries' = S (length entries) /\
  forall x, In x entries' <-> x = record \/ In x entries.
Proof.
  induction entries as [|y l IH]; intros entries' H; cbn [store_add] in H.
  - injection H as <-. split; [reflexivity|]. intros x. cbn. intuition.
  - destruct (id record ?= id y)%Q; [discriminate| |].
    + injection H as <-. split; [reflexivity|]. intros x. cbn. intuition.
    + destruct (store_add record l) as [l'|]; [|discriminate].
      injection H as <-. destruct (IH l' eq_refl) as [Hlen Hin].
      split; [cbn; rewrite Hlen; reflexivity|].
      intros x. cbn. rewrite Hin. intuition.
Qed.

(** X14: on an open database (version 1, the object store in key order) an
    enqueue whose key is free resolves and adds exactly its record, keeping
    every record that was there; an enqueue whose key is taken rejects with
    ConstraintError and leaves the database as it was. The key is the
    double that [Date.now() + Math.random()] rounds to, so it is taken also
    when the exact sum differs from a stored key and rounds onto it. *)
Theorem storeOperationForSync_adds_or_rejects :
  forall (tick : Tick) (operation : Operation) (db : IDBDatabase)
         (entries : list SyncOperation),
    version db = 1%positive -> syncQueue db = Some entries -> store_ok entries ->
    (has_key (KeyNumber (id (stored (tick, operation)))) db = false ->
     exists entries',
       storeOperationForSync tick operation (Some db)
       = (Resolved tt, Some (with_syncQueue db entries')) /\
       length entries' = S (length entries) /\
       forall x, In x entries' <-> x = stored (tick, operation) \/ In x entries) /\
    (has_key (KeyNumber (id (stored (tick, operation)))) db = true ->
     storeOperationForSync tick operation (Some db)
     = (Rejected (DOMException "ConstraintError"), Some db)).
Proof.
  intros tick operation db entries Hv Hq Hok.
  rewrite (storeOperationForSync_open tick operation db entries Hv Hq).
  unfold has_key. rewrite Hq.
  pose proof (store_add_None_iff (stored (tick, operation)) entries Hok) as Hnone.
  destruct (store_add (stored (tick, operation)) entries) as [entries'|] eqn:Ha.
  - split.
    + intros _. exists entries'. split; [reflexivity|]. apply store_add_In, Ha.
    + intros H. apply Hnone in H. discriminate.
  - split; [|reflexivity].
    intros H. destruct Hnone as [Hn _]. rewrite (Hn eq_refl) in H. discriminate.
Qed.

Lemma storeOperationForSync_adds_or_rejects_witness :
  storeOperationForSync milk_tick create_milk (Some (with_syncQueue empty_db [milk_entry]))
  = (Rejected (DOMException "ConstraintError"), Some (with_syncQueue empty_db [milk_entry])) /\
  storeOperationForSync
    {| now_id := 1730000000000; random := 524289 # 1048576; now_ts := 1730000000000 |}
    update_milk
    (Some (with_syncQueue empty_db
             [ {| id := 3460000000001 # 2; type := "CREATE_TASK";
                  data := "{title: 'Buy milk'}"; timestamp := 1730000000000 |} ]))
  = (Rejected (DOMException "ConstraintError"),
     Some (with_syncQueue empty_db
             [ {| id := 3460000000001 # 2; type := "CREATE_TASK";
                  data := "{title: 'Buy milk'}"; timestamp := 1730000000000 |} ])) /\
  exists entries',
    storeOperationForSync milk_tick create_milk (Some (with_syncQueue empty_db mixed_queue))
    = (Resolved tt, Some (with_syncQueue (with_syncQueue empty_db mixed_queue) entries')) /\
    length entries' = 4%nat.
Proof.
  split; [|split].
  - apply (storeOperationForSync_adds_or_rejects milk_tick create_milk
             (with_syncQueue empty_db [milk_entry]) [milk_entry] eq_refl eq_refl).
    + repeat constructor.
    + reflexivity.
  - apply (storeOperationForSync_adds_or_rejects
             {| now_id := 1730000000000; random := 524289 # 1048576;
                now_ts := 1730000000000 |}
             update_milk
             (with_syncQueue empty_db
                [ {| id := 3460000000001 # 2; type := "CREATE_TASK";
                     data := "{title: 'Buy milk'}"; timestamp := 1730000000000 |} ])
             [ {| id := 3460000000001 # 2; type := "CREATE_TASK";
                  data := "{title: 'Buy milk'}"; timestamp := 1730000000000 |} ]
             eq_refl eq_refl).
    + repeat constructor.
    + vm_compute. reflexivity.
  - destruct (storeOperationForSync_adds_or_rejects milk_tick create_milk
                (with_syncQueue empty_db mixed_queue) mixed_queue eq_refl eq_refl
                mixed_queue_ok) as [H _].
    destruct (H eq_refl) as (entries' & He & Hl & _).
    exists entries'. split; [exact He | exact Hl].
Defined.

Lemma store_add_delete record : forall entries entries',
  store_ok entries -> store_add record entries = Some entries' ->
  store_delete (id record) entries' = entries.
Proof.
  assert (Hself : Qeq_bool (id record) (id record) = true)
    by (apply Qeq_bool_iff; reflexivity).
  induction entries as [|y l IH]; intros entries' Hok H; cbn [store_add] in H.
  - injection H as <-. unfold store_delete. cbn. rewrite Hself. reflexivity.
  - apply StronglySorted_inv in Hok as [Hl Hy].
    destruct (id record ?= id y)%Q eqn:Hc; [discriminate| |].
    + injection H as <-. apply Qlt_alt in Hc.
      unfold store_delete. cbn [List.filter]. rewrite Hself. cbn [negb].
      apply (store_delete_absent (id record) (y :: l)).
      apply not_true_is_false. intros Hex.
      apply existsb_exists in Hex as (x & Hx & He). apply Qeq_bool_iff in He.
      destruct Hx as [<- | Hx]; [lra|].
      rewrite List.Forall_forall in Hy. apply Hy in Hx. unfold key_lt in Hx. lra.
    + destruct (store_add record l) as [l'|] eqn:Ha; [|discriminate].
      injection H as <-. apply Qgt_alt in Hc.
      unfold store_delete. cbn [List.filter].
      assert (Hne : Qeq_bool (id y) (id record) = false).
      { apply not_true_is_false. intros He. apply Qeq_bool_iff in He. lra. }
      rewrite Hne. cbn [negb]. f_equal. apply (IH l' Hl eq_refl).
Qed.

(** X15: enqueue and complete are inverse to each other: after an enqueue
    that resolved, [markOperationComplete] with the key of the new record
    resolves and gives back the database as it was before the enqueue. *)
Theorem enqueue_then_complete_restores_database :
  forall (tick : Tick) (operation : Operation) (db db' : IDBDatabase)
         (entries : list SyncOperation),
    version db = 1%positive -> syncQueue db = Some entries -> store_ok entries ->
    storeOperationForSync tick operation (Some db) = (Resolved tt, Some db') ->
    markOperationComplete db' (KeyNumber (id (stored (tick, operation))))
    = (Resolved tt, db).
Proof.
  intros tick operation db db' entries Hv Hq Hok H.
  rewrite (storeOperationForSync_open tick operation db entries Hv Hq) in H.
  destruct (store_add (stored (tick, operation)) entries) as [entries'|] eqn:Ha;
    [|discriminate].
  injection H as <-.
  rewrite (markOperationComplete_number (with_syncQueue db entries') entries' _ eq_refl).
  rewrite (store_add_delete _ entries entries' Hok Ha).
  unfold with_syncQueue. cbn [version]. fold (with_syncQueue db entries).
  rewrite (with_syncQueue_same db entries Hq). reflexivity.
Qed.

Lemma enqueue_then_complete_restores_database_witness :
  markOperationComplete
    (with_syncQueue empty_db [stored (milk_tick, create_milk)])
    (KeyNumber (id (stored (milk_tick, create_milk))))
  = (Resolved tt, empty_db).
Proof.
  apply (enqueue_then_complete_restores_database milk_tick create_milk empty_db
           (with_syncQueue empty_db [stored (milk_tick, create_milk)]) [] eq_refl eq_refl).
  - constructor.
  - reflexivity.
Defined.

(** *** Whole drain passes *)

Lemma filter_store_ok (f : SyncOperation -> bool) entries :
  store_ok entries -> store_ok (List.filter f entries).
Proof.
  induction 1 as [|a l Hs IH Hall]; [constructor|].
  cbn [List.filter]. destruct (f a); [|exact IH].
  constructor; [exact IH|].
  rewrite List.Forall_forall in *. intros x Hx.
  apply filter_In in Hx as [Hx _]. apply Hall, Hx.
Qed.

(** A pass over an open database, in full. *)
Lemma syncPendingOperations_on_queue w db entries :
  indexedDB w = Some db -> version db = 1%positive ->
  syncQueue db = Some entries -> store_ok entries ->
  syncPendingOperations w
  = {| settled := Resolved tt;
       world :=
         {| indexedDB :=
              Some (with_syncQueue db
                      (List.filter (fun operation => negb (succeeds operation)) entries));
            clients := clients w;
            posted := (posted w
                       ++ List.map (fun client => (client, SYNC_COMPLETE (length entries)))
                                   (clients w))%list |};
       calls := flat_map calls_for entries |}.
Proof.
  intros Hw Hv Hq Hok. unfold syncPendingOperations.
  rewrite Hw, (openDatabase_version_1 db Hv), (getPendingOperations_with_store db entries Hq).
  rewrite drain_loop_eq, (drained_queue db entries Hq Hok). reflexivity.
Qed.

(** X16: a second drain pass retries exactly the operations the first pass
    could not execute, reports their number, and leaves the syncQueue as
    the first pass left it: an operation of an unknown type stays queued
    and is retried on every pass. *)
Theorem second_drain_pass_retries_the_failed :
  forall (w : World) (db : IDBDatabase) (entries : list SyncOperation),
    indexedDB w = Some db -> version db = 1%positive ->
    syncQueue db = Some entries -> store_ok entries ->
    let failed := List.filter (fun operation => negb (succeeds operation)) entries in
    let first := syncPendingOperations w in
    let second := syncPendingOperations (world first) in
    executed (calls second) = failed /\
    indexedDB (world second) = indexedDB (world first) /\
    posted (world second)
    = (posted (world first)
       ++ List.map (fun client => (client, SYNC_COMPLETE (length failed))) (clients w))%list.
Proof.
  intros w db entries Hw Hv Hq Hok failed first second. subst first second.
  rewrite (syncPendingOperations_on_queue w db entries Hw Hv Hq Hok).
  cbn [world].
  erewrite (syncPendingOperations_on_queue _ (with_syncQueue db failed) failed);
    [| reflexivity | exact Hv | reflexivity | apply filter_store_ok, Hok].
  cbn [calls world indexedDB posted clients].
  split; [apply executed_calls_for|]. split; [|reflexivity].
  subst failed. rewrite filter_twice. reflexivity.
Qed.

Lemma second_drain_pass_retries_the_failed_witness :
  executed (calls (syncPendingOperations
                     (world (syncPendingOperations
                               (world_of (with_syncQueue empty_db mixed_queue))))))
  = [ {| id := 2; type := "RENAME_TASK"; data := "b"; timestamp := 2 |} ].
Proof.
  destruct (second_drain_pass_retries_the_failed
              (world_of (with_syncQueue empty_db mixed_queue))
              (with_syncQueue empty_db mixed_queue) mixed_queue
              eq_refl eq_refl eq_refl mixed_queue_ok) as (H & _).
  exact H.
Defined.

(** X17: when the database is at a version above 1, opening it fails with
    VersionError and the drain pass ends in its outer catch: it resolves,
    executes nothing, posts nothing and leaves the database untouched. *)
Theorem syncPendingOperations_newer_database_is_left_alone :
  forall (w : World) (db : IDBDatabase),
    indexedDB w = Some db -> (1 < version db)%positive ->
    syncPendingOperations w = {| settled := Resolved tt; world := w; calls := [] |}.
Proof.
  intros [disk cl po] db Hw Hv. cbn in Hw. subst disk.
  unfold syncPendingOperations, openDatabase. cbn [indexedDB clients posted].
  apply Pos.ltb_lt in Hv. rewrite Hv. reflexivity.
Qed.

Lemma syncPendingOperations_newer_database_is_left_alone_witness :
  syncPendingOperations (world_of {| version := 2; syncQueue := Some mixed_queue |})
  = {| settled := Resolved tt;
       world := world_of {| version := 2; syncQueue := Some mixed_queue |};
       calls := [] |}.
Proof.
  apply (syncPendingOperations_newer_database_is_left_alone
           (world_of {| version := 2; syncQueue := Some mixed_queue |})
           {| version := 2; syncQueue := Some mixed_queue |} eq_refl).
  reflexivity.
Defined.

(** *** Page and worker together *)

(** X18: an enqueue that runs before the worker ever opened the database
    never settles and creates the database at version 1 without the object
    store. From then on no upgrade runs: every later enqueue never settles
    either and leaves the database as it is, and every drain pass finds no
    store, reports count 0 and leaves the database as it is. *)
Theorem early_enqueue_blocks_the_outbox :
  forall (tick : Tick) (operation : Operation),
    let disk := snd (storeOperationForSync tick operation None) in
    fst (storeOperationForSync tick operation None) = NeverSettles /\
    disk = Some db_without_store /\
    (forall tick' operation',
       storeOperationForSync tick' operation' disk = (NeverSettles, disk)) /\
    (forall cl po,
       let run := syncPendingOperations {| indexedDB := disk; clients := cl; posted := po |} in
       settled run = Resolved tt /\
       calls run = [] /\
       indexedDB (world run) = disk /\
       posted (world run)
       = (po ++ List.map (fun client => (client, SYNC_COMPLETE 0)) cl)%list).
Proof.
  intros tick operation disk. subst disk. cbn.
  split; [reflexivity|]. split; [reflexivity|]. split.
  - intros tick' operation'. reflexivity.
  - intros cl po. repeat split.
Qed.

(** X19: [requestBackgroundSync] never rejects, and when the enqueue
    itself rejects (a key that is taken, a database of a newer version) it
    still resolves, registers no sync and leaves the operation out of the
    queue: the caller cannot tell that the operation was not stored. *)
Theorem requestBackgroundSync_swallows_enqueue_failure :
  forall (sm : SyncManager) (tick : Tick) (operation : Operation)
         (disk : option IDBDatabase),
    (forall e, fst (fst (requestBackgroundSync sm tick operation disk)) <> Rejected e) /\
    (forall e disk',
       storeOperationForSync tick operation disk = (Rejected e, disk') ->
       requestBackgroundSync sm tick operation disk = (Resolved tt, disk', []) /\
       disk' = disk).
Proof.
  intros sm tick operation disk. split.
  - intros e. unfold requestBackgroundSync.
    destruct (storeOperationForSync tick operation disk) as [[u | e' |] disk'];
      cbn [fst]; try discriminate.
    destruct (sync_supported sm); [|discriminate].
    destruct (worker_ready sm); [|discriminate].
    destruct (register sm "task-sync"); discriminate.
  - intros e disk' H. unfold requestBackgroundSync. rewrite H. split; [reflexivity|].
    unfold storeOperationForSync in H. destruct disk as [db|].
    + destruct (1 <? version db)%positive; [injection H as _ <-; reflexivity|].
      destruct (transaction_syncQueue db) as [err | entries]; [discriminate|].
      match type of H with context [store_add ?r entries] =>
        destruct (store_add r entries) end; [discriminate|].
      injection H as _ <-. reflexivity.
    + cbn in H. discriminate.
Qed.

Lemma requestBackgroundSync_swallows_enqueue_failure_witness :
  requestBackgroundSync sync_manager_ok milk_tick create_milk
    (Some (with_syncQueue empty_db [milk_entry]))
  = (Resolved tt, Some (with_syncQueue empty_db [milk_entry]), []).
Proof.
  destruct (requestBackgroundSync_swallows_enqueue_failure sync_manager_ok milk_tick
              create_milk (Some (with_syncQueue empty_db [milk_entry]))) as [_ H].
  destruct (H (DOMException "ConstraintError")
              (Some (with_syncQueue empty_db [milk_entry])) eq_refl) as [H1 _].
  exact H1.
Defined.

(** X20: page and worker agree on the sync tag and on the operation types.
    Once the worker has opened the database, a create operation (or an
    update) queued through [requestBackgroundSync] on a page with
    background sync is stored and registers a tag for which the 'sync'
    listener runs a drain pass; that pass executes the operation, empties
    the syncQueue and posts SYNC_COMPLETE with count 1 to every client. *)
Theorem queued_operation_is_drained_by_the_sync_event :
  forall (sm : SyncManager) (tick : Tick) (payload : string) (operation : Operation)
         (cl : list string) (po : list (string * Message)),
    sync_supported sm = true -> worker_ready sm = true ->
    register sm "task-sync" = Resolved tt ->
    operation = queued_create payload \/ operation = queued_update payload ->
    let opened := snd (openDatabase None) in
    let request := requestBackgroundSync sm tick operation opened in
    fst (fst request) = Resolved tt /\
    pending (snd (fst request)) = Resolved [stored (tick, operation)] /\
    exists tag run,
      snd request = [tag] /\
      sync_listener tag {| indexedDB := snd (fst request); clients := cl; posted := po |}
      = Some run /\
      settled run = Resolved tt /\
      executed (calls run) = [stored (tick, operation)] /\
      pending (indexedDB (world run)) = Resolved [] /\
      posted (world run)
      = (po ++ List.map (fun client => (client, SYNC_COMPLETE 1)) cl)%list.
Proof.
  intros sm tick payload operation cl po Hs Hw Hr Hop opened request.
  subst opened request.
  assert (Hstore : storeOperationForSync tick operation (snd (openDatabase None))
                   = (Resolved tt, Some (with_syncQueue empty_db [stored (tick, operation)])))
    by reflexivity.
  unfold requestBackgroundSync. rewrite Hstore, Hs, Hw, Hr. cbn [fst snd].
  split; [reflexivity|]. split; [reflexivity|].
  exists "task-sync". eexists. split; [reflexivity|].
  split; [reflexivity|].
  assert (Hok : store_ok [stored (tick, operation)]) by (repeat constructor).
  erewrite (syncPendingOperations_on_queue _
              (with_syncQueue empty_db [stored (tick, operation)])
              [stored (tick, operation)]);
    [| reflexivity | reflexivity | reflexivity | exact Hok].
  cbn [settled calls world indexedDB posted clients].
  assert (Hsucc : succeeds (stored (tick, operation)) = true)
    by (destruct Hop as [-> | ->]; reflexivity).
  split; [reflexivity|]. split; [apply executed_calls_for|].
  cbn [List.filter length]. rewrite Hsucc. split; reflexivity.
Qed.

Lemma queued_operation_is_drained_by_the_sync_event_witness :
  pending (snd (fst (requestBackgroundSync sync_manager_ok milk_tick
                       (queued_create "{title: 'Buy milk'}") (snd (openDatabase None)))))
  = Resolved [stored (milk_tick, queued_create "{title: 'Buy milk'}")].
Proof.
  destruct (queued_operation_is_drained_by_the_sync_event sync_manager_ok milk_tick
              "{title: 'Buy milk'}" (queued_create "{title: 'Buy milk'}") [] []
              eq_refl eq_refl eq_refl (or_introl eq_refl)) as (_ & H & _).
  exact H.
Defined.

End OutboxMore.

Module PushMore.
Import NotificationClick PushListener.

(** X21: a push message without data shows nothing. For a push message
    whose JSON is an object, exactly one notification is shown, it carries
    the [title] and [data] members of the message, and it offers the actions
    'complete' and 'view'. A click on either of them makes the
    'notificationclick' listener throw right after closing the
    notification, whatever the message holds: a ReferenceError for
    'complete' ([handleTaskComplete] is not defined) and a TypeError for
    'view' (the payload is not on the event). *)
Theorem push_offers_actions_that_throw_on_click :
  forall props : list (string * JsValue),
    push None = ([], Normal) /\
    exists title options,
      push (Some (PushJson (JsObject props))) = ([ShowNotification title options], Normal) /\
      title = lookup_prop "title" props /\
      data options = lookup_prop "data" props /\
      List.map action (actions options) = ["complete"; "view"] /\
      (forall chosen,
         In chosen (List.map action (actions options)) ->
         exists e, notificationclick (click_on options chosen)
                   = ([NotificationClose], Throw e)) /\
      notificationclick (click_on options "complete")
      = ([NotificationClose], Throw (ReferenceError "handleTaskComplete is not defined")) /\
      notificationclick (click_on options "view")
      = ([NotificationClose],
         Throw (TypeError "Cannot read properties of undefined (reading 'taskId')")).
Proof.
  intros props. split; [reflexivity|].
  eexists. eexists. split; [reflexivity|].
  split; [reflexivity|]. split; [reflexivity|]. split; [reflexivity|].
  split; [|split; reflexivity].
  intros chosen [<- | [<- | []]]; eexists; reflexivity.
Qed.

Lemma push_offers_actions_that_throw_on_click_witness :
  exists title options e,
    push (Some (PushJson (JsObject [("title", JsString "Due"); ("data", payload_of "t1")])))
    = ([ShowNotification title options], Normal) /\
    notificationclick (click_on options "view") = ([NotificationClose], Throw e).
Proof.
  destruct (push_offers_actions_that_throw_on_click
              [("title", JsString "Due"); ("data", payload_of "t1")])
    as (_ & title & options & Hp & _ & _ & Ha & Hc & _).
  destruct (Hc "view") as [e He]; [rewrite Ha; right; left; reflexivity|].
  exists title, options, e. split; [exact Hp | exact He].
Defined.

End PushMore.

Module TemplateMore.
Import Outbox OutboxFacts.

Lemma template_drain_loop_agrees operations : forall db entries,
  syncQueue db = Some entries ->
  TemplateWorker.drain_loop db operations = Outbox.drain_loop db operations.
Proof.
  induction operations as [|operation rest IH]; intros db entries Hq; [reflexivity|].
  cbn [TemplateWorker.drain_loop Outbox.drain_loop].
  destruct (executeOperation operation) as [u | e |]; [| |reflexivity].
  - rewrite (markOperationComplete_number db entries _ Hq).
    unfold TemplateWorker.markOperationComplete, transaction_syncQueue. rewrite Hq.
    rewrite (IH (with_syncQueue db (store_delete (id operation) entries))
                (store_delete (id operation) entries) eq_refl). reflexivity.
  - rewrite (IH db entries Hq). reflexivity.
Qed.

(** X22: whenever the database holds the 'syncQueue' object store, the
    drain of sw.js, with its guards, and the drain of the worker template,
    without them, do exactly the same: the same promise, the same calls in
    the same order, the same database and the same messages. *)
Theorem template_drain_agrees_when_store_exists :
  forall (w : World) (db : IDBDatabase) (entries : list SyncOperation),
    indexedDB w = Some db -> syncQueue db = Some entries ->
    TemplateWorker.syncPendingOperations w = Outbox.syncPendingOperations w.
Proof.
  intros w db entries Hw Hq.
  unfold TemplateWorker.syncPendingOperations, Outbox.syncPendingOperations.
  unfold TemplateWorker.openDatabase, Outbox.openDatabase. rewrite Hw.
  destruct (1 <? version db)%positive; [reflexivity|].
  rewrite (getPendingOperations_with_store db entries Hq).
  unfold TemplateWorker.getPendingOperations, transaction_syncQueue. rewrite Hq.
  rewrite (template_drain_loop_agrees entries db entries Hq). reflexivity.
Qed.

Lemma template_drain_agrees_when_store_exists_witness :
  TemplateWorker.syncPendingOperations (world_of (with_syncQueue empty_db mixed_queue))
  = Outbox.syncPendingOperations (world_of (with_syncQueue empty_db mixed_queue)).
Proof.
  apply (template_drain_agrees_when_store_exists
           (world_of (with_syncQueue empty_db mixed_queue))
           (with_syncQueue empty_db mixed_queue) mixed_queue eq_refl eq_refl).
Defined.

(** X23: on a first run the two workers differ. The drain of sw.js creates
    the object store and posts SYNC_COMPLETE with count 0; the drain of the
    template creates the database without the object store, ends in its
    outer catch and posts nothing, and a later drain of the template finds
    the same and again posts nothing. *)
Theorem template_drain_on_first_run_posts_nothing :
  forall (cl : list string) (po : list (string * Message)),
    let w := {| indexedDB := None; clients := cl; posted := po |} in
    TemplateWorker.syncPendingOperations w
    = {| settled := Resolved tt;
         world := {| indexedDB := Some db_without_store; clients := cl; posted := po |};
         calls := [] |} /\
    TemplateWorker.syncPendingOperations (world (TemplateWorker.syncPendingOperations w))
    = TemplateWorker.syncPendingOperations w /\
    Outbox.syncPendingOperations w
    = {| settled := Resolved tt;
         world := {| indexedDB := Some empty_db; clients := cl;
                     posted := (po ++ List.map (fun client => (client, SYNC_COMPLETE 0)) cl)%list |};
         calls := [] |}.
Proof. intros cl po w. repeat split. Qed.

End TemplateMore.

Module SanitizerMore.
Import InputSanitizer.

Lemma escape_cases u :
  (u = 38 /\ escape u = [38; 97; 109; 112; 59]) \/
  (u = 160 /\ escape u = [38; 110; 98; 115; 112; 59]) \/
  (u = 60 /\ escape u = [38; 108; 116; 59]) \/
  (u = 62 /\ escape u = [38; 103; 116; 59]) \/
  (plain u /\ escape u = [u]).
Proof.
  unfold escape, plain.
  destruct (Z.eqb_spec u 38) as [-> | H1]; [left; split; reflexivity|].
  destruct (Z.eqb_spec u 160) as [-> | H2]; [right; left; split; reflexivity|].
  destruct (Z.eqb_spec u 60) as [-> | H3]; [right; right; left; split; reflexivity|].
  destruct (Z.eqb_spec u 62) as [-> | H4]; [right; right; right; left; split; reflexivity|].
  right; right; right; right. repeat split; assumption.
Qed.

Lemma sanitizeHTML_units input u :
  In u (sanitizeHTML input) -> u <> 60 /\ u <> 62.
Proof.
  intros H. unfold sanitizeHTML in H.
  apply in_flat_map in H as (x & _ & Hx).
  destruct (escape_cases x) as [[_ E] | [[_ E] | [[_ E] | [[_ E] | [[_ [_ [P3 P4]]] E]]]]];
    rewrite E in Hx; cbn in Hx;
    repeat (destruct Hx as [<- | Hx]; [split; (discriminate || assumption)|]);
    destruct Hx.
Qed.

(** X24: the output of [sanitizeHTML] holds no '<' and no '>' code unit,
    whatever the input: no tag of the input survives as markup. *)
Theorem sanitizeHTML_has_no_angle_brackets :
  forall (input : CodeUnits) (u : Z),
    In u (sanitizeHTML input) -> u <> 60 /\ u <> 62.
Proof. intros input u. apply sanitizeHTML_units. Qed.

Lemma sanitizeHTML_has_no_angle_brackets_witness :
  In 38 (sanitizeHTML (units "<b>")) /\ 38 <> 60 /\ 38 <> 62.
Proof.
  split; [left; reflexivity|].
  apply (sanitizeHTML_has_no_angle_brackets (units "<b>") 38). left. reflexivity.
Defined.

Lemma sanitizeHTML_length input :
  length (sanitizeHTML input) = escaped_length input.
Proof.
  unfold sanitizeHTML, escaped_length.
  induction input as [|u s IH]; [reflexivity|].
  cbn [flat_map length count_occ]. rewrite length_app, IH.
  destruct (escape_cases u) as [[-> E] | [[-> E] | [[-> E] | [[-> E] | [[P1 [P2 [P3 P4]]] E]]]]];
    rewrite E; cbn [length];
    repeat match goal with
           | |- context [Z.eq_dec ?a ?b] => destruct (Z.eq_dec a b); try congruence; try lia
           end.
Qed.

(** X25: [sanitizeHTML] returns its input unchanged exactly when the input
    holds no '&', no '<', no '>' and no no-break space; on any other input
    the result differs, so sanitizing a sanitized text again changes it
    whenever the first pass wrote an entity. *)
Theorem sanitizeHTML_fixes_exactly_plain_text :
  forall input : CodeUnits,
    sanitizeHTML input = input <-> Forall plain input.
Proof.
  intros input. split.
  - intros H. pose proof (sanitizeHTML_length input) as Hl. rewrite H in Hl.
    unfold escaped_length in Hl.
    apply List.Forall_forall. intros u Hu. unfold plain.
    repeat split; intros ->;
      match goal with
      | Hu : In ?n input |- _ =>
          apply (count_occ_In Z.eq_dec) in Hu; lia
      end.
  - induction 1 as [|u s Hu Hs IH]; [reflexivity|].
    unfold sanitizeHTML in *. cbn [flat_map]. rewrite IH.
    destruct (escape_cases u) as [[-> E] | [[-> E] | [[-> E] | [[-> E] | [_ E]]]]];
      try (destruct Hu as (H1 & H2 & H3 & H4); congruence).
    rewrite E. reflexivity.
Qed.

Lemma sanitizeHTML_fixes_exactly_plain_text_witness :
  sanitizeHTML (units "Buy milk") = units "Buy milk".
Proof.
  apply (sanitizeHTML_fixes_exactly_plain_text (units "Buy milk")).
  repeat constructor; discriminate.
Defined.

Lemma one_of_allowed allowed value fallback :
  In fallback allowed -> In (one_of allowed value fallback) allowed.
Proof.
  intros Hf. unfold one_of. destruct value as [v|]; [|exact Hf].
  case_bool_decide as Hv; [|exact Hf]. apply list_elem_of_In, Hv.
Qed.

(** X26: whatever [validateTaskData] returns is safe to store: the title
    is not empty and has at most 200 code units, title and description
    hold no '<' and no '>', the priority is one of low, medium, high and
    urgent, and the status is one of pending, completed and archived. *)
Theorem validateTaskData_result_is_valid :
  forall (data : TaskData) (r : Sanitized),
    validateTaskData data = inr r ->
    s_title r <> [] /\
    (length (s_title r) <= 200)%nat /\
    (forall u, In u (s_title r) \/ In u (s_description r) -> u <> 60 /\ u <> 62) /\
    In (s_priority r) priorities /\
    In (s_status r) statuses.
Proof.
  intros data r H. unfold validateTaskData in H. cbn [s_title] in H.
  destruct (sanitizeHTML (trimmed (title data))) as [|u t] eqn:Ht; [discriminate|].
  destruct (Nat.ltb_spec 200 (length (u :: t))) as [Hlen | Hlen]; [discriminate|].
  injection H as <-. cbn [s_title s_description s_priority s_status].
  split; [discriminate|]. split; [exact Hlen|]. split.
  - intros x [Hx | Hx].
    + rewrite <- Ht in Hx. eapply sanitizeHTML_units, Hx.
    + eapply sanitizeHTML_units, Hx.
  - split; apply one_of_allowed.
    + right. left. reflexivity.
    + left. reflexivity.
Qed.

Lemma validateTaskData_result_is_valid_witness :
  exists r,
    validateTaskData {| title := Some (units " <b>Buy milk</b> "); description := None;
                        priority := Some (units "asap"); status := None |} = inr r /\
    s_priority r = units "medium" /\ s_status r = units "pending" /\
    (length (s_title r) <= 200)%nat.
Proof.
  eexists. split; [vm_compute; reflexivity|].
  split; [reflexivity|]. split; [reflexivity|].
  eapply (validateTaskData_result_is_valid
            {| title := Some (units " <b>Buy milk</b> "); description := None;
               priority := Some (units "asap"); status := None |}).
  vm_compute. reflexivity.
Defined.

(** X27: [validateTaskData] measures the title after trimming and
    escaping: it accepts exactly when the trimmed title, counting four more
    units for every '&', five for every no-break space and three for every
    '<' or '>', has between 1 and 200 code units, and throws otherwise. A
    title of exactly 200 plain units is accepted; a title within 200 units
    can be refused for the entities it needs. *)
Theorem validateTaskData_accepts_iff_escaped_length_fits :
  forall data : TaskData,
    let n := escaped_length (trimmed (title data)) in
    ((1 <= n <= 200)%nat ->
     exists r, validateTaskData data = inr r /\
               s_title r = sanitizeHTML (trimmed (title data))) /\
    ((n = 0 \/ 200 < n)%nat ->
     validateTaskData data
     = inl (ErrorObj "Title is required and must be less than 200 characters")).
Proof.
  intros data n. subst n. rewrite <- sanitizeHTML_length.
  unfold validateTaskData. cbn [s_title].
  destruct (sanitizeHTML (trimmed (title data))) as [|u t] eqn:Ht.
  - split; [cbn; lia | reflexivity].
  - destruct (Nat.ltb_spec 200 (length (u :: t))) as [Hlen | Hlen].
    + split; [lia | reflexivity].
    + split; [intros _; eexists; split; reflexivity|].
      cbn [length] in *. lia.
Qed.

Lemma validateTaskData_accepts_iff_escaped_length_fits_witness :
  validateTaskData {| title := Some (repeat 97 199 ++ [38])%list; description := None;
                      priority := None; status := None |}
  = inl (ErrorObj "Title is required and must be less than 200 characters") /\
  exists r, validateTaskData {| title := Some (repeat 97 200); description := None;
                                priority := None; status := None |} = inr r.
Proof.
  split.
  - apply (validateTaskData_accepts_iff_escaped_length_fits
             {| title := Some (repeat 97 199 ++ [38])%list; description := None;
                priority := None; status := None |}).
    right. vm_compute. lia.
  - destruct (validateTaskData_accepts_iff_escaped_length_fits
                {| title := Some (repeat 97 200); description := None;
                   priority := None; status := None |}) as [H _].
    destruct H as (r & Hr & _); [vm_compute; lia|].
    exists r. exact Hr.
Defined.

End SanitizerMore.

Module TestFrameworkMore.
Import SimpleTestFramework.







End TestFrameworkMore.

Module AppStateMore.
Import AppState.

Section Facts.
Context {V : Type}.

(** X29: the function returned by [subscribe] removes every registration of
    its callback at once, however often the callback was subscribed, and
    nothing else: the other subscribers keep their registrations and their
    order (the list that is left is a subsequence of the old one, and every
    selection of other callbacks reads from it as it read from the old
    one), the state is untouched, and calling it again changes nothing. *)
Theorem unsubscribe_removes_every_registration :
  forall (callback : nat) (s : Store V),
    ~ In callback (subscribers (unsubscribe callback s)) /\
    unsubscribe callback (subscribe callback (subscribe callback s))
    = unsubscribe callback s /\
    unsubscribe callback (unsubscribe callback s) = unsubscribe callback s /\
    state (unsubscribe callback s) = state s /\
    (forall other,
       other <> callback ->
       List.filter (Nat.eqb other) (subscribers (unsubscribe callback s))
       = List.filter (Nat.eqb other) (subscribers s)) /\
    sublist (subscribers (unsubscribe callback s)) (subscribers s) /\
    (forall keep : nat -> bool,
       keep callback = false ->
       List.filter keep (subscribers (unsubscribe callback s))
       = List.filter keep (subscribers s)).
Proof.
  intros callback s. unfold unsubscribe, subscribe. cbn [subscribers state].
  split.
  { intros H. apply filter_In in H as [_ H]. rewrite Nat.eqb_refl in H. discriminate. }
  split.
  { f_equal. rewrite <- app_assoc, List.filter_app. cbn [app List.filter].
    rewrite Nat.eqb_refl. cbn [negb]. apply app_nil_r. }
  split.
  { f_equal. apply OutboxFacts.filter_twice. }
  split; [reflexivity|].
  assert (Hkeep : forall keep : nat -> bool,
            keep callback = false ->
            List.filter keep
              (List.filter (fun sub => negb (Nat.eqb sub callback)) (subscribers s))
            = List.filter keep (subscribers s)).
  { intros keep Hk. induction (subscribers s) as [|x l IH]; [reflexivity|].
    cbn [List.filter]. destruct (Nat.eqb_spec x callback) as [-> | Hx]; cbn [negb].
    - rewrite IH, Hk. reflexivity.
    - cbn [List.filter]. rewrite IH. reflexivity. }
  split.
  { intros other Hne. apply Hkeep.
    destruct (Nat.eqb_spec other callback); [contradiction | reflexivity]. }
  split; [|exact Hkeep].
  clear Hkeep. induction (subscribers s) as [|x l IH]; [constructor|].
  cbn [List.filter]. destruct (negb (Nat.eqb x callback)).
  - apply sublist_skip, IH.
  - apply sublist_cons, IH.
Qed.

(** X30: [setState] overwrites the keys of the update and keeps every other
    key, calls every subscriber once per registration, in order, with the
    new state, and two updates in a row leave the state that the single
    merged update leaves. *)
Theorem setState_merges_and_notifies :
  forall (u1 u2 : gmap string V) (s : Store V),
    (forall key,
       state (fst (setState u1 s)) !! key
       = match u1 !! key with
         | Some v => Some v
         | None => state s !! key
         end) /\
    snd (setState u1 s)
    = List.map (fun callback => (callback, state (fst (setState u1 s)))) (subscribers s) /\
    fst (setState u2 (fst (setState u1 s))) = fst (setState (u2 ∪ u1) s).
Proof.
  intros u1 u2 s. unfold setState, notifySubscribers. cbn [fst snd state subscribers].
  split.
  { intros key. rewrite lookup_union.
    destruct (u1 !! key), (state s !! key); reflexivity. }
  split; [reflexivity|].
  f_equal. apply (assoc_L (∪)).
Qed.

End Facts.

Lemma unsubscribe_removes_every_registration_witness :
  List.filter (Nat.eqb 2)
    (subscribers (unsubscribe 1 {| state := (∅ : gmap string nat);
                                   subscribers := [1%nat; 2%nat; 1%nat] |}))
  = [2%nat].
Proof.
  destruct (unsubscribe_removes_every_registration 1
              {| state := (∅ : gmap string nat); subscribers := [1%nat; 2%nat; 1%nat] |})
    as (_ & _ & _ & _ & H & _).
  rewrite (H 2%nat); [reflexivity | discriminate].
Defined.

End AppStateMore.
